(** * ApiMocker: request matching, ranking and response building

    A shallow embedding of [src/mocker.ts] (class [ApiMocker]) and of the
    declarations of [src/types.ts] it relies on.

    Conventions of the embedding.
    - JavaScript strings are [string]s of 8-bit characters.
    - [Record<string, string>] objects are [gmap string string], the map
      of their own properties; the one insertion-ordered container whose
      order is observable, the endpoint [Map], is an association list.
      An assignment [obj[key] = value] is an insertion for every key but
      [__proto__], which names an accessor of [Object.prototype]
      ([Record_set], [Object_set]).
    - The platform classes [URL], [URLSearchParams], [Headers] and [Request]
      are represented by what their accessors return: a parsed URL is its
      [pathname] and the ordered list of its query pairs, a request carries
      the pairs its [Headers] object enumerates and the text of its body.
    - Throwing and the side effects of user callbacks are explicit: a
      computation maps a world to an outcome (a value or a thrown error)
      and a new world.  [await] is sequencing.
    - Numbers are integers.  Console logging is left out; a call handed
      to the saved [fetch] is the result [RealTransport].
    - [new Response] follows the Fetch standard for arguments of the
      declared types; what the standard leaves to the platform, and what
      the platform does with other arguments, is a parameter
      ([Platform]). *)

From Stdlib Require Import ZArith Ascii.
From stdpp Require Import gmap strings list fin_maps pretty.

#[local] Set Warnings "-register-all".

(** ** Strings *)

Module Str.

Definition ch_eqb (a b : ascii) : bool := Ascii.eqb a b.

Definition startsWith_ch (c : ascii) (s : string) : bool :=
  match s with
  | String d _ => ch_eqb d c
  | EmptyString => false
  end.

Fixpoint endsWith_ch (c : ascii) (s : string) : bool :=
  match s with
  | EmptyString => false
  | String d EmptyString => ch_eqb d c
  | String _ s' => endsWith_ch c s'
  end.

(** [s.slice(0, -1)] *)
Fixpoint dropLast (s : string) : string :=
  match s with
  | EmptyString => EmptyString
  | String _ EmptyString => EmptyString
  | String d s' => String d (dropLast s')
  end.

(** [s.slice(n)] *)
Fixpoint slice_from (n : nat) (s : string) : string :=
  match n, s with
  | O, _ => s
  | S n', String _ s' => slice_from n' s'
  | S _, EmptyString => EmptyString
  end.

(** [s.substring(1)] *)
Definition substring1 (s : string) : string := slice_from 1 s.

(** [s.startsWith(p)] *)
Fixpoint startsWith (p s : string) : bool :=
  match p with
  | EmptyString => true
  | String a p' =>
      match s with
      | String b s' => ch_eqb a b && startsWith p' s'
      | EmptyString => false
      end
  end.

(** [s.split(c)] for a one-character separator: never the empty list. *)
Fixpoint split (c : ascii) (s : string) : list string :=
  match s with
  | EmptyString => [EmptyString]
  | String d s' =>
      if ch_eqb d c then EmptyString :: split c s'
      else match split c s' with
           | w :: ws => String d w :: ws
           | [] => [String d EmptyString]
           end
  end.

(** [Boolean(s)] on a string: the empty string is the only falsy one. *)
Definition truthy (s : string) : bool :=
  match s with EmptyString => false | _ => true end.

(** [parts.filter(Boolean)] *)
Definition filterBoolean (parts : list string) : list string :=
  List.filter truthy parts.

Definition upper_ch (c : ascii) : ascii :=
  let n := nat_of_ascii c in
  if (97 <=? n)%nat && (n <=? 122)%nat then ascii_of_nat (n - 32) else c.

Definition lower_ch (c : ascii) : ascii :=
  let n := nat_of_ascii c in
  if (65 <=? n)%nat && (n <=? 90)%nat then ascii_of_nat (n + 32) else c.

Fixpoint map_ch (f : ascii -> ascii) (s : string) : string :=
  match s with
  | EmptyString => EmptyString
  | String d s' => String (f d) (map_ch f s')
  end.

Definition toUpperCase : string -> string := map_ch upper_ch.
Definition toLowerCase : string -> string := map_ch lower_ch.

Fixpoint all_ch (f : ascii -> bool) (s : string) : bool :=
  match s with
  | EmptyString => true
  | String d s' => f d && all_ch f s'
  end.

(** Joining segments back with a separator: the inverse of [split]. *)
Fixpoint join (c : ascii) (parts : list string) : string :=
  match parts with
  | [] => EmptyString
  | [w] => w
  | w :: ws => w +:+ String c (join c ws)
  end.

End Str.

(** ** Path normalisation ([normalizePath], [trimTrailingSlash]) *)

Definition normalizePath (path : string) : string :=
  match path with
  | EmptyString => "/"
  | _ => if Str.startsWith_ch "/" path then path else String "/" path
  end.

Definition trimTrailingSlash (path : string) : string :=
  if (1 <? String.length path)%nat && Str.endsWith_ch "/" path
  then Str.dropLast path
  else path.

(** ** The regular expression built by [matchesPath]

    [matchesPath] builds the source text of a regular expression with two
    [String.prototype.replace] calls and compiles it with [new RegExp].
    Both replacements are modelled on text; [RegExp] reads the text back
    into the two kinds of item such a source can contain. *)

Module Regex.

Definition one_of (cs : string) (c : ascii) : bool :=
  negb (Str.all_ch (fun d => negb (Str.ch_eqb d c)) cs).

(** The class [[-/\\^$*+?.()|[\]{}]] of the first replacement. *)
Definition is_special (c : ascii) : bool :=
  one_of "-/\^$*+?.()|[]{}" c.

(** [[A-Za-z0-9_]] *)
Definition is_word (c : ascii) : bool :=
  let n := nat_of_ascii c in
  ((65 <=? n) && (n <=? 90) || (97 <=? n) && (n <=? 122) ||
   (48 <=? n) && (n <=? 57) || (n =? 95))%nat.

(** The class [[A-Za-z0-9_-]] of the second replacement. *)
Definition is_name_char (c : ascii) : bool :=
  is_word c || Str.ch_eqb c "-".

(** [s.replace(/[-/\\^$*+?.()|[\]{}]/g, '\\$&')] *)
Fixpoint escape (s : string) : string :=
  match s with
  | EmptyString => EmptyString
  | String c s' =>
      if is_special c then String "\" (String c (escape s'))
      else String c (escape s')
  end.

Definition starts_with_name (s : string) : bool :=
  match s with
  | String c _ => is_name_char c
  | EmptyString => false
  end.

(** [s.replace(/:([A-Za-z0-9_-]+)/g, '([^/]+)')]: a left-to-right scan;
    [in_name] holds while the characters of a matched name are being
    consumed (the [+] is greedy). *)
Fixpoint replace_params (in_name : bool) (s : string) : string :=
  match s with
  | EmptyString => EmptyString
  | String c s' =>
      if in_name && is_name_char c then replace_params true s'
      else if Str.ch_eqb c ":" && starts_with_name s'
      then "([^/]+)" +:+ replace_params true s'
      else String c (replace_params false s')
  end.

(** What a compiled expression of this shape is made of. *)
Inductive item : Type :=
  | Lit (c : ascii)    (* one literal character *)
  | Seg.               (* the group [([^/]+)] *)

(** Characters with a meaning of their own in a pattern. *)
Definition is_syntax (c : ascii) : bool := one_of "\^$*+?.()|[]{}" c.

(** Reading the text between [^] and the closing [$].  [skip] counts the
    characters of a group still to be passed over.  Any construct other
    than a literal, an escaped special character or the group [([^/]+)]
    is outside this model ([None]). *)
Fixpoint read_items (skip : nat) (src : string) : option (list item) :=
  match src with
  | EmptyString => None
  | String c s' =>
      match skip with
      | S k => read_items k s'
      | O =>
          if Str.ch_eqb c "$" then
            match s' with EmptyString => Some [] | _ => None end
          else if Str.ch_eqb c "\" then
            match s' with
            | String d s'' =>
                if is_special d then cons (Lit d) <$> read_items 0 s''
                else None
            | EmptyString => None
            end
          else if Str.ch_eqb c "(" then
            if Str.startsWith "[^/]+)" s'
            then cons Seg <$> read_items 6 s'
            else None
          else if is_syntax c then None
          else cons (Lit c) <$> read_items 0 s'
      end
  end.

(** [new RegExp(src)] for a source of the form [^...$]. *)
Definition RegExp (src : string) : option (list item) :=
  match src with
  | String c s' => if Str.ch_eqb c "^" then read_items 0 s' else None
  | EmptyString => None
  end.

(** [regex.test(s)] for an anchored sequence of items: [Seg] takes one or
    more characters other than [/]. *)
Fixpoint test (r : list item) (s : string) : bool :=
  match r with
  | [] => match s with EmptyString => true | _ => false end
  | Lit c :: r' =>
      match s with
      | String d s' => Str.ch_eqb c d && test r' s'
      | EmptyString => false
      end
  | Seg :: r' =>
      (fix seg (s : string) : bool :=
         match s with
         | EmptyString => false
         | String d s' => negb (Str.ch_eqb d "/") && (test r' s' || seg s')
         end) s
  end.

End Regex.

(** ** Reading a pattern by segments

    The definitions of this part are not taken from the source: they say
    what the expression compiled by [matchesPath] consists of, and what
    matching segment by segment means. *)

Module Pattern.

Definition starts_with_word (s : string) : bool :=
  match s with
  | String c _ => Regex.is_word c
  | EmptyString => false
  end.

(** The items of the expression compiled from a pattern: a [:] followed by
    word characters is a parameter token, the rest is literal. *)
Fixpoint tokens (in_name : bool) (p : string) : list Regex.item :=
  match p with
  | EmptyString => []
  | String c p' =>
      if in_name && Regex.is_word c then tokens true p'
      else if Str.ch_eqb c ":" && starts_with_word p' then Regex.Seg :: tokens true p'
      else Regex.Lit c :: tokens false p'
  end.

(** Does a parameter token start somewhere in [s]? *)
Fixpoint has_token (s : string) : bool :=
  match s with
  | EmptyString => false
  | String c s' => (Str.ch_eqb c ":" && starts_with_word s') || has_token s'
  end.

(** [:name], with a name of letters, digits and underscores. *)
Definition is_param_segment (segment : string) : bool :=
  match segment with
  | String c name => Str.ch_eqb c ":" && Str.truthy name && Str.all_ch Regex.is_word name
  | EmptyString => false
  end.

(** A segment is either one whole parameter token or free of tokens. *)
Definition segment_shaped (segment : string) : bool :=
  is_param_segment segment || negb (has_token segment).

Definition segment_pattern (p : string) : bool :=
  forallb segment_shaped (Str.split "/" p).

(** Segment-wise matching: the same number of segments, a parameter
    segment against any non-empty segment, any other segment against
    itself. *)
Fixpoint segments_match (ps us : list string) : bool :=
  match ps, us with
  | [], [] => true
  | p :: ps', u :: us' =>
      (if is_param_segment p then Str.truthy u else bool_decide (p = u))
      && segments_match ps' us'
  | _, _ => false
  end.

Definition slash_free (s : string) : Prop :=
  Str.all_ch (fun d => negb (Str.ch_eqb d "/")) s = true.

(** A string read as literal items. *)
Fixpoint literal_items (s : string) : list Regex.item :=
  match s with
  | EmptyString => []
  | String c s' => Regex.Lit c :: literal_items s'
  end.

(** The first segment of a string and what follows its first [/]. *)
Fixpoint split1 (s : string) : string * option string :=
  match s with
  | EmptyString => (EmptyString, None)
  | String c s' =>
      if Str.ch_eqb c "/" then (EmptyString, Some s')
      else let '(u, r) := split1 s' in (String c u, r)
  end.

End Pattern.

(** ** JavaScript values *)

(** Platform classes the code tests with [instanceof]. *)
Inductive NativeClass : Type :=
  | CResponse | CBlob | CFormData | CURLSearchParams
  | CReadableStream | CArrayBuffer | CArrayBufferView.

(** Values a mock may resolve to ([any]): JSON-like data and instances of
    platform classes, the latter identified by a handle. *)
Inductive JsValue : Type :=
  | JUndefined
  | JNull
  | JBool (b : bool)
  | JNum (n : Z)
  | JStr (s : string)
  | JArr (items : list JsValue)
  | JObj (props : gmap string JsValue)
  | JNative (cls : NativeClass) (handle : nat).

(** [typeof v === 'object'] *)
Definition typeof_object (v : JsValue) : bool :=
  match v with
  | JNull | JArr _ | JObj _ | JNative _ _ => true
  | _ => false
  end.

(** [key in v], for an object [v].  Exact for the three names the code
    asks about ([data], [status], [headers]): a [Response] instance has
    [status] and [headers] but no [data]; arrays and the other platform
    classes have none of them. *)
Definition has_prop (key : string) (v : JsValue) : bool :=
  match v with
  | JObj props => bool_decide (is_Some (props !! key))
  | JNative CResponse _ => bool_decide (key = "status" ∨ key = "headers")
  | _ => false
  end.

(** [v.key] on a plain object ([undefined] when absent). *)
Definition get_prop (key : string) (v : JsValue) : JsValue :=
  match v with
  | JObj props => default JUndefined (props !! key)
  | _ => JUndefined
  end.

(** [a ?? b] *)
Definition nullish (v : JsValue) : bool :=
  match v with JUndefined | JNull => true | _ => false end.

Definition coalesce (a b : JsValue) : JsValue := if nullish a then b else a.

(** [!v] is false *)
Definition js_truthy (v : JsValue) : bool :=
  match v with
  | JUndefined | JNull => false
  | JBool b => b
  | JNum n => negb (n =? 0)%Z
  | JStr s => Str.truthy s
  | _ => true
  end.

(** The characters of a string, each as a one-character string value. *)
Fixpoint chars_of (s : string) : list JsValue :=
  match s with
  | EmptyString => []
  | String c s' => JStr (String c EmptyString) :: chars_of s'
  end.

(** [Object.entries(v)] as a map: a plain object lists its properties, an
    array and a string list their elements under decimal indices, and
    the other values have no enumerable property of their own. *)
Definition Object_entries (v : JsValue) : gmap string JsValue :=
  match v with
  | JObj props => props
  | JArr items => list_to_map (imap (fun i x => (pretty i, x)) items)
  | JStr s => list_to_map (imap (fun i x => (pretty i, x)) (chars_of s))
  | _ => ∅
  end.

(** *** Assigning to a property of a plain object

    [obj[key] = value] creates or updates a property of [obj] for every
    key but one: [__proto__] names an accessor that objects inherit from
    [Object.prototype].  Unless the object has a property of that name of
    its own, the assignment calls the inherited setter: it replaces the
    prototype of [obj] when the value is an object or [null], does
    nothing otherwise, and [obj] gets no property either way. *)

(** On a [Record<string, string>]: a string is never made the prototype. *)
Definition Record_set (key value : string) (obj : gmap string string)
    : gmap string string :=
  match obj !! key with
  | None => if bool_decide (key = "__proto__") then obj else <[key := value]> obj
  | Some _ => <[key := value]> obj
  end.

(** An object of values of any kind: its own properties and, once an
    assignment has replaced it, its prototype. *)
Record PlainObject : Type := mkObject {
  own : gmap string JsValue;
  proto : option JsValue        (* [None]: [Object.prototype] *)
}.

(** Does [obj.__proto__ = ...] reach the setter of [Object.prototype]?
    Not when [obj] or its prototype has a property of that name, nor when
    the prototype is [null].  (A platform object as prototype brings
    accessors of its own class; an assignment that meets one of those is
    outside the embedding.) *)
Definition inherits_proto_setter (obj : PlainObject) : bool :=
  match own obj !! "__proto__" with
  | Some _ => false
  | None =>
      match proto obj with
      | None => true
      | Some JNull => false
      | Some (JObj props) =>
          match props !! "__proto__" with Some _ => false | None => true end
      | Some _ => true
      end
  end.

Definition Object_set (key : string) (value : JsValue) (obj : PlainObject)
    : PlainObject :=
  if bool_decide (key = "__proto__") && inherits_proto_setter obj
  then if typeof_object value then mkObject (own obj) (Some value) else obj
  else mkObject (<[key := value]> (own obj)) (proto obj).

(** ** Errors and computations *)

Inductive ErrorClass : Type :=
  | TypeError | RangeError | SyntaxError | DOMException | Error.

Record JsError : Type := mkError {
  err_class : ErrorClass;
  err_name : string;
  err_message : string
}.

(** [new TypeError(msg)] *)
Definition new_TypeError (msg : string) : JsError := mkError TypeError "TypeError" msg.

Inductive Outcome (A : Type) : Type :=
  | Return (a : A)
  | Throw (e : JsError).
Arguments Return {A} a.
Arguments Throw {A} e.

(** ** Platform objects *)

Record URL : Type := mkURL {
  pathname : string;
  searchParams : list (string * string)   (* pairs, in the order of the query string *)
}.

(** [searchParams.get(key)]: the first value of [key], [null] if none. *)
Fixpoint searchParams_get (key : string) (sp : list (string * string)) : option string :=
  match sp with
  | [] => None
  | (k, v) :: sp' => if bool_decide (k = key) then Some v else searchParams_get key sp'
  end.

Record Request : Type := mkRequest {
  req_url : URL;
  req_headers : list (string * string);   (* what [headers.forEach] enumerates *)
  req_text : Outcome string               (* what [request.clone().text()] settles to *)
}.

(** The arguments of one [fetch(input, init)] call: [init.method] and the
    [Request] built from the absolute URL and [init]. *)
Record FetchCall : Type := mkCall {
  call_method : option string;
  call_request : Request
}.

(** What [serializeBody] hands to [new Response]. *)
Inductive Body : Type :=
  | BodyNull
  | BodyRaw (v : JsValue)      (* a [BodyInit] value, passed through *)
  | BodyJson (v : JsValue).    (* [JSON.stringify(v)] *)

(** ** The platform's [Response]

    [new Response(body, { status, headers })] as the Fetch standard has
    it.  A response made by the constructor is represented by what can be
    read back from it: its body, its status and its header list. *)

Record BuiltResponse : Type := mkResponse {
  resp_body : Body;
  resp_status : Z;
  (** the entries of [init.headers] that entered the header list, each
      under the name it was given with; the list compares names without
      case ([has_header]) *)
  resp_filled : gmap string string;
  (** the [Content-Type] the constructor added on behalf of the body *)
  resp_content_type : option string
}.

(** What the embedding takes from the platform. *)
Record Platform : Type := mkPlatform {
  (** the MIME type of a body that is a platform object ([Blob],
      [FormData], ...), or the error of one that cannot be read (a locked
      stream) *)
  native_body_type : NativeClass -> nat -> Outcome (option string);
  (** lower-case names a response may not carry; they are dropped without
      an error (browsers: [set-cookie], [set-cookie2]) *)
  forbidden_response_header : string -> bool;
  (** the constructor on arguments outside the declared types, or on
      which platforms differ: a status that is not a non-negative
      integer, a header value that is not a string, a header object with
      a property [__proto__] or with an iterable prototype *)
  untyped_Response : Body -> JsValue -> PlainObject -> Outcome BuiltResponse;
  (** the wording of the constructor's errors *)
  status_wording : Z -> string;
  header_wording : gmap string string -> string;
  null_body_wording : Z -> string
}.

Module Fetch.

(** A character of an HTTP token. *)
Definition is_tchar (c : ascii) : bool :=
  Regex.is_word c || Regex.one_of "!#$%&'*+-.^`|~" c.

(** A header name is a token of at least one character. *)
Definition is_header_name (name : string) : bool :=
  Str.truthy name && Str.all_ch is_tchar name.

(** HTTP whitespace: tab, line feed, carriage return, space. *)
Definition is_whitespace (c : ascii) : bool :=
  let n := nat_of_ascii c in
  ((n =? 9) || (n =? 10) || (n =? 13) || (n =? 32))%nat.

Fixpoint strip_leading (s : string) : string :=
  match s with
  | EmptyString => EmptyString
  | String c s' => if is_whitespace c then strip_leading s' else s
  end.

Fixpoint strip_trailing (s : string) : string :=
  match s with
  | EmptyString => EmptyString
  | String c s' =>
      match strip_trailing s' with
      | EmptyString => if is_whitespace c then EmptyString else String c EmptyString
      | rest => String c rest
      end
  end.

(** Normalising a header value: the whitespace at both ends is removed. *)
Definition normalize_value (value : string) : string :=
  strip_trailing (strip_leading value).

(** A normalised value is a header value when it has no NUL, line feed or
    carriage return. *)
Definition is_header_value (value : string) : bool :=
  Str.all_ch (fun c => let n := nat_of_ascii c in
                       negb ((n =? 0) || (n =? 10) || (n =? 13))%nat) value.

(** [Headers.append] accepts the entry. *)
Definition valid_entry (entry : string * string) : bool :=
  is_header_name entry.1 && is_header_value (normalize_value entry.2).

Definition is_null_body_status (status : Z) : bool :=
  bool_decide (status ∈ [101; 103; 204; 205; 304]%Z).

Definition is_null_body (body : Body) : bool :=
  match body with BodyNull => true | _ => false end.

(** Does a header list filled from [entries] contain [name]? *)
Definition contains (name : string) (entries : gmap string string) : bool :=
  existsb (fun entry => bool_decide (Str.toLowerCase entry.1 = Str.toLowerCase name))
          (map_to_list entries).

(** Extracting the body: the MIME type that goes with it, if any.  [None]
    for a first argument that is no [BodyInit]. *)
Definition body_type (platform : Platform) (body : Body)
    : option (Outcome (option string)) :=
  match body with
  | BodyNull => Some (Return None)
  | BodyJson _ | BodyRaw (JStr _) => Some (Return (Some "text/plain;charset=UTF-8"))
  | BodyRaw (JNative CResponse _) => None
  | BodyRaw (JNative cls handle) => Some (native_body_type platform cls handle)
  | BodyRaw _ => None
  end.

Definition string_of (v : JsValue) : option string :=
  match v with JStr s => Some s | _ => None end.

(** [init.headers] as a [record<ByteString, ByteString>]: an object whose
    own values are strings, that has no property [__proto__] (platforms
    differ on whether the record keeps it) and that is not iterable (an
    array or a platform object as prototype can make it so). *)
Definition record_of (headers : PlainObject) : option (gmap string string) :=
  if forallb (fun entry => bool_decide (is_Some (string_of entry.2)))
             (map_to_list (own headers))
     && match own headers !! "__proto__" with Some _ => false | None => true end
     && match proto headers with
        | Some (JArr _) | Some (JNative _ _) => false
        | _ => true
        end
  then Some (omap string_of (own headers))
  else None.

(** The constructor's steps once the arguments are converted: the body is
    extracted; the status, an [unsigned short], must lie in 200..599; the
    header list is filled, every name and value being checked; a body
    needs a status that allows one; the body's type becomes the
    [Content-Type] unless the list has one. *)
Definition initialize (platform : Platform) (body : Body)
    (extracted : Outcome (option string)) (code : Z) (record : gmap string string)
    : Outcome BuiltResponse :=
  match extracted with
  | Throw x => Throw x
  | Return type =>
      let status := (code `mod` 65536)%Z in
      if negb ((200 <=? status) && (status <=? 599))%Z then
        Throw (mkError RangeError "RangeError" (status_wording platform status))
      else if negb (forallb valid_entry (map_to_list record)) then
        Throw (mkError TypeError "TypeError" (header_wording platform record))
      else if negb (is_null_body body) && is_null_body_status status then
        Throw (mkError TypeError "TypeError" (null_body_wording platform status))
      else
        let filled :=
          normalize_value <$>
            filter (fun entry =>
                      forbidden_response_header platform (Str.toLowerCase entry.1) = false)
                   record in
        Return (mkResponse body status filled
                  (if contains "Content-Type" filled then None else type))
  end.

(** [new Response(body, { status, headers })] *)
Definition new_Response (platform : Platform) (body : Body) (status : JsValue)
    (headers : PlainObject) : Outcome BuiltResponse :=
  match status, record_of headers, body_type platform body with
  | JNum code, Some record, Some extracted =>
      if (0 <=? code)%Z then initialize platform body extracted code record
      else untyped_Response platform body status headers
  | _, _, _ => untyped_Response platform body status headers
  end.

End Fetch.

Inductive ResponseObj : Type :=
  | NativeResponse (handle : nat)
  | NewResponse (r : BuiltResponse).

Inductive FetchResult : Type :=
  | Mocked (r : ResponseObj)
  | RealTransport (call : FetchCall).   (* [boundOriginalFetch(input, init)] *)

Record RequestContext : Type := mkContext {
  ctx_params : gmap string string;
  ctx_body : JsValue;
  ctx_queryParams : gmap string string;
  ctx_headers : gmap string string;
  ctx_request : Request
  (* [state] is the shared object itself: callbacks reach it through the world *)
}.

(** ** The mocker *)

Section Mocker.

(** Whatever the callbacks of a mock author close over. *)
Context {U : Type}.
(** [JSON.parse]: [None] stands for a [SyntaxError]. *)
Context (JSON_parse : string -> option JsValue).
(** [typeof DOMException !== 'undefined'] *)
Context (hasDOMException : bool).
(** The platform's [Response] constructor. *)
Context (platform : Platform).

(** The part of the world a callback can read and write: the shared
    [state] object and its own closure. *)
Definition Script (A : Type) : Type :=
  gmap string JsValue * U -> Outcome A * (gmap string JsValue * U).

Inductive ResponseSource : Type :=
  | StaticValue (v : JsValue)                        (* [response], a value *)
  | StaticFunction (f : Script JsValue)              (* [response], a function *)
  | Handler (h : RequestContext -> Script JsValue).  (* [handler] *)

(** [MockEndpoint | DynamicEndpoint] *)
Record Endpoint : Type := mkEndpoint {
  path : string;
  method : string;
  source : ResponseSource;
  status : option Z;
  delay : option Z;
  headers : option (gmap string string);
  priority : option Z;
  queryParams : option (gmap string string);
  requestHeaders : option (gmap string string);
  match_ : option (Request -> Script bool);
  networkError : option string
}.

Record MockConfig : Type := mkConfig {
  baseUrl : option URL;        (* the base URL as [new URL] reads it; [None] when empty *)
  globalDelay : option Z;
  globalHeaders : option (gmap string string);
  logRequests : bool;
  defaultPriority : option Z
}.

Record ApiMocker : Type := mkMocker {
  endpoints : list (string * list Endpoint);   (* the [Map], in insertion order *)
  config : MockConfig;
  isEnabled : bool;
  state : gmap string JsValue
}.

Record World : Type := mkWorld {
  this : ApiMocker;
  user : U;
  slept : Z          (* total time spent in [sleep] *)
}.

Definition M (A : Type) : Type := World -> Outcome A * World.

Definition ret {A} (a : A) : M A := fun w => (Return a, w).
Definition throw {A} (e : JsError) : M A := fun w => (Throw e, w).
Definition bind {A B} (c : M A) (k : A -> M B) : M B :=
  fun w => match c w with
           | (Return a, w') => k a w'
           | (Throw e, w') => (Throw e, w')
           end.
(** [try { c } catch { h }] *)
Definition try_catch {A} (c : M A) (h : M A) : M A :=
  fun w => match c w with
           | (Return a, w') => (Return a, w')
           | (Throw _, w') => h w'
           end.
(** Settling a platform promise whose result is known. *)
Definition settle {A} (o : Outcome A) : M A := fun w => (o, w).

(** Running a callback: it sees the shared state and its closure only. *)
Definition run {A} (s : Script A) : M A :=
  fun w =>
    let '(o, (st, u)) := s (state (this w), user w) in
    (o, mkWorld (mkMocker (endpoints (this w)) (config (this w)) (isEnabled (this w)) st)
                u (slept w)).

Definition get_this : M ApiMocker := fun w => (Return (this w), w).

Definition sleep (ms : Z) : M unit :=
  fun w => (Return tt, mkWorld (this w) (user w) (slept w + ms)).

#[local] Notation "'let!' x ':=' c 'in' k" := (bind c (fun x => k))
  (at level 10, x pattern, c at level 100, k at level 200).

(** *** The endpoint [Map] *)

Definition Map_has {V} (key : string) (mp : list (string * V)) : bool :=
  bool_decide (key ∈ mp.*1).

Fixpoint Map_get {V} (key : string) (mp : list (string * V)) : option V :=
  match mp with
  | [] => None
  | (k, v) :: mp' => if bool_decide (k = key) then Some v else Map_get key mp'
  end.

(** [map.set(key, v)]: an existing key keeps its place, a new one goes last. *)
Fixpoint Map_set {V} (key : string) (v : V) (mp : list (string * V)) : list (string * V) :=
  match mp with
  | [] => [(key, v)]
  | (k, v') :: mp' =>
      if bool_decide (k = key) then (k, v) :: mp' else (k, v') :: Map_set key v mp'
  end.

Fixpoint Map_delete {V} (key : string) (mp : list (string * V)) : list (string * V) :=
  match mp with
  | [] => []
  | (k, v') :: mp' =>
      if bool_decide (k = key) then mp' else (k, v') :: Map_delete key mp'
  end.

(** Updating in place the array stored under [key]. *)
Fixpoint Map_update {V} (key : string) (f : V -> V) (mp : list (string * V)) : list (string * V) :=
  match mp with
  | [] => []
  | (k, v) :: mp' =>
      if bool_decide (k = key) then (k, f v) :: mp' else (k, v) :: Map_update key f mp'
  end.

(** *** [Array.prototype.sort] with a comparator: a stable sort; [x] goes
    before [y] when [cmp x y <= 0] and [x] came first. *)

Fixpoint sort_insert {A} (cmp : A -> A -> Z) (x : A) (l : list A) : list A :=
  match l with
  | [] => [x]
  | y :: l' => if (cmp x y <=? 0)%Z then x :: l else y :: sort_insert cmp x l'
  end.

Definition Array_sort {A} (cmp : A -> A -> Z) (l : list A) : list A :=
  foldr (sort_insert cmp) [] l.

(** *** Registration *)

Definition createEndpointKey (method path : string) : string :=
  method +:+ ":" +:+ path.

Definition with_priority (endpoint : Endpoint) (p : Z) : Endpoint :=
  mkEndpoint (path endpoint) (method endpoint) (source endpoint) (status endpoint)
    (delay endpoint) (headers endpoint) (Some p) (queryParams endpoint)
    (requestHeaders endpoint) (match_ endpoint) (networkError endpoint).

Definition priority_or_0 (e : Endpoint) : Z := default 0%Z (priority e).

Definition sortEndpointsByPriority (key : string)
    (eps : list (string * list Endpoint)) : list (string * list Endpoint) :=
  match Map_get key eps with
  | Some l =>
      if (1 <? length l)%nat
      then Map_update key
             (Array_sort (fun a b => (priority_or_0 b - priority_or_0 a)%Z)) eps
      else eps
  | None => eps
  end.

(** [mock(endpoint)]; [mockDynamic(endpoint)] has the same body. *)
Definition mock (endpoint : Endpoint) (m : ApiMocker) : ApiMocker :=
  let key := createEndpointKey (method endpoint) (path endpoint) in
  let endpointWithPriority :=
    with_priority endpoint
      (default (default 0%Z (defaultPriority (config m))) (priority endpoint)) in
  let eps := endpoints m in
  let eps := if negb (Map_has key eps) then Map_set key [] eps else eps in
  let eps := Map_update key (fun l => l ++ [endpointWithPriority]) eps in
  let eps := sortEndpointsByPriority key eps in
  mkMocker eps (config m) (isEnabled m) (state m).

Definition mockDynamic : Endpoint -> ApiMocker -> ApiMocker := mock.

Definition enable (m : ApiMocker) : ApiMocker :=
  mkMocker (endpoints m) (config m) true (state m).

Definition disable (m : ApiMocker) : ApiMocker :=
  mkMocker (endpoints m) (config m) false (state m).

Definition clear (m : ApiMocker) : ApiMocker :=
  mkMocker [] (config m) (isEnabled m) ∅.

Definition remove (method path : string) (m : ApiMocker) : ApiMocker :=
  mkMocker (Map_delete (createEndpointKey method path) (endpoints m))
    (config m) (isEnabled m) (state m).

(** [getState()] returns a copy of the shared object. *)
Definition getState (m : ApiMocker) : gmap string JsValue := state m.

(** [this.state[key] = value]: an assignment to [__proto__] gives the
    state object no property, unless it has one of that name already.
    (The prototype such an assignment can install is not part of the
    state as the embedding has it: [getState] copies properties only.) *)
Definition setState (key : string) (value : JsValue) (m : ApiMocker) : ApiMocker :=
  mkMocker (endpoints m) (config m) (isEnabled m)
    (match state m !! key with
     | None => if bool_decide (key = "__proto__") then state m
               else <[key := value]> (state m)
     | Some _ => <[key := value]> (state m)
     end).

Definition clearState (m : ApiMocker) : ApiMocker :=
  mkMocker (endpoints m) (config m) (isEnabled m) ∅.

(** *** Paths *)

Definition getBasePath (cfg : MockConfig) : string :=
  match baseUrl cfg with
  | None => EmptyString
  | Some base =>
      if bool_decide (pathname base = "/") then EmptyString
      else normalizePath (pathname base)
  end.

Definition getPathWithoutBase (cfg : MockConfig) (url : URL) : string :=
  let requestPath := normalizePath (pathname url) in
  let basePath := getBasePath cfg in
  if Str.truthy basePath && Str.startsWith basePath requestPath
  then normalizePath (Str.slice_from (String.length basePath) requestPath)
  else requestPath.

Definition matchesPath (cfg : MockConfig) (pattern : string) (url : URL) : bool :=
  let patternPath := trimTrailingSlash (normalizePath pattern) in
  let requestPath := trimTrailingSlash (getPathWithoutBase cfg url) in
  let escapedPattern := Regex.escape patternPath in
  let patternRegex := Regex.replace_params false escapedPattern in
  match Regex.RegExp ("^" +:+ patternRegex +:+ "$") with
  | Some regex => Regex.test regex requestPath
  | None => false
  end.

Definition calculateSpecificity (path : string) : Z :=
  let segments :=
    Str.filterBoolean (Str.split "/" (trimTrailingSlash (normalizePath path))) in
  foldl (fun specificity segment =>
           if Str.startsWith_ch ":" segment then (specificity + 1)%Z
           else (specificity + 10)%Z)
        0%Z segments.

(** [patternParts.forEach((part, index) => ...)] of [extractParams]. *)
Definition extractParams (cfg : MockConfig) (pattern : string) (url : URL)
    : gmap string string :=
  let normalizedPattern := trimTrailingSlash (normalizePath pattern) in
  let requestPath := trimTrailingSlash (getPathWithoutBase cfg url) in
  let patternParts := Str.filterBoolean (Str.split "/" normalizedPattern) in
  let urlParts := Str.filterBoolean (Str.split "/" requestPath) in
  foldl (fun params '(index, part) =>
           if Str.startsWith_ch ":" part then
             match urlParts !! index with
             | Some value =>
                 if Str.truthy value
                 then Record_set (Str.substring1 part) value params
                 else params
             | None => params
             end
           else params)
        ∅ (imap pair patternParts).

(** *** Query and header constraints *)

Definition matchesQueryParams (expectedParams : gmap string string) (url : URL) : bool :=
  forallb (fun '(key, expectedValue) =>
             bool_decide (searchParams_get key (searchParams url) = Some expectedValue))
          (map_to_list expectedParams).

Definition extractQueryParams (url : URL) : gmap string string :=
  foldl (fun params '(key, value) => Record_set key value params) ∅ (searchParams url).

Definition extractHeaders (request : Request) : gmap string string :=
  foldl (fun headers '(key, value) => Record_set (Str.toLowerCase key) value headers)
        ∅ (req_headers request).

(** [requestHeaders[name] !== expectedValue] reads a property of the
    object itself or, failing that, one inherited from
    [Object.prototype]; an inherited one is never a string. *)
Definition matchesHeaders (expectedHeaders : gmap string string) (request : Request) : bool :=
  let requestHeaders := extractHeaders request in
  forallb (fun '(key, expectedValue) =>
             bool_decide (requestHeaders !! Str.toLowerCase key = Some expectedValue))
          (map_to_list expectedHeaders).

(** *** Matching one endpoint *)

Definition matchesEndpoint (endpoint : Endpoint) (method : string) (url : URL)
    (request : Request) : M bool :=
  if negb (bool_decide (Mocker.method endpoint = method)) then ret false
  else
    let! accepted :=
      match match_ endpoint with
      | Some predicate => run (predicate request)
      | None => ret true
      end in
    if negb accepted then ret false
    else
      let! m := get_this in
      if negb (matchesPath (config m) (path endpoint) url) then ret false
      else if match queryParams endpoint with
              | Some expected => negb (matchesQueryParams expected url)
              | None => false
              end then ret false
      else if match requestHeaders endpoint with
              | Some expected => negb (matchesHeaders expected request)
              | None => false
              end then ret false
      else ret true.

(** *** Choosing among the endpoints that match *)

Record Candidate : Type := mkCandidate {
  cand_endpoint : Endpoint;
  cand_specificity : Z
}.

(** The two nested [for ... of] loops: every list of the map in turn. *)
Fixpoint collectCandidates (method : string) (url : URL) (request : Request)
    (eps : list Endpoint) : M (list Candidate) :=
  match eps with
  | [] => ret []
  | endpoint :: rest =>
      let! hit := matchesEndpoint endpoint method url request in
      let! candidates := collectCandidates method url request rest in
      ret (if hit
           then mkCandidate endpoint (calculateSpecificity (path endpoint)) :: candidates
           else candidates)
  end.

Definition compareCandidates (a b : Candidate) : Z :=
  let priorityA := priority_or_0 (cand_endpoint a) in
  let priorityB := priority_or_0 (cand_endpoint b) in
  if negb (priorityA =? priorityB)%Z then (priorityB - priorityA)%Z
  else (cand_specificity b - cand_specificity a)%Z.

Definition findMatchingEndpoint (method : string) (url : URL) (request : Request)
    : M (option Endpoint) :=
  let! m := get_this in
  let! candidates :=
    collectCandidates method url request (mjoin ((endpoints m).*2)) in
  match Array_sort compareCandidates candidates with
  | [] => ret None
  | best :: _ => ret (Some (cand_endpoint best))
  end.

(** *** Building the response *)

Definition isBodyInit (value : JsValue) : bool :=
  match value with
  | JStr _ | JNull => true
  | JNative CBlob _ | JNative CFormData _ | JNative CURLSearchParams _
  | JNative CReadableStream _ | JNative CArrayBuffer _
  | JNative CArrayBufferView _ => true
  | _ => false
  end.

Definition serializeBody (data : JsValue) : Body :=
  match data with
  | JUndefined | JNull => BodyNull
  | _ => if isBodyInit data then BodyRaw data else BodyJson data
  end.

Definition isMockResponse (value : JsValue) : bool :=
  negb (match value with JNull => true | _ => false end) &&
  typeof_object value &&
  has_prop "data" value &&
  (has_prop "status" value || has_prop "headers" value).

(** [Record<string, string>] as a JavaScript value. *)
Definition record_value (r : gmap string string) : JsValue := JObj (JStr <$> r).

Definition optional_record (r : option (gmap string string)) : JsValue :=
  match r with Some r => record_value r | None => JUndefined end.

(** [mergeHeaders(...headerGroups)]: the global headers are copied into
    a new object (a spread defines properties, [__proto__] included) and
    the groups are assigned over it one after the other, key by key. *)
Definition mergeHeaders (cfg : MockConfig) (headerGroups : list JsValue)
    : PlainObject :=
  foldl (fun headers group =>
           if negb (js_truthy group) then headers
           else foldl (fun headers '(key, value) => Object_set key value headers)
                      headers (map_to_list (Object_entries group)))
        (mkObject (JStr <$> default ∅ (globalHeaders cfg)) None) headerGroups.

Definition optional_number (n : option Z) : JsValue :=
  match n with Some n => JNum n | None => JUndefined end.

Definition normalizeResponse (cfg : MockConfig) (endpoint : Endpoint)
    (responseValue : JsValue) : Body * JsValue * PlainObject :=
  if isMockResponse responseValue then
    let headers :=
      mergeHeaders cfg [optional_record (Mocker.headers endpoint);
                        get_prop "headers" responseValue] in
    let body := serializeBody (get_prop "data" responseValue) in
    let status :=
      coalesce (get_prop "status" responseValue)
        (coalesce (optional_number (Mocker.status endpoint)) (JNum 200)) in
    (body, status, headers)
  else
    let headers := mergeHeaders cfg [optional_record (Mocker.headers endpoint)] in
    let body := serializeBody responseValue in
    let status := coalesce (optional_number (Mocker.status endpoint)) (JNum 200) in
    (body, status, headers).

Definition parseRequestBody (request : Request) : M JsValue :=
  try_catch
    (let! text := settle (req_text request) in
     if negb (Str.truthy text) then ret JUndefined
     else
       try_catch
         (match JSON_parse text with
          | Some value => ret value
          | None => throw (mkError SyntaxError "SyntaxError" "Unexpected token")
          end)
         (ret (JStr text)))
    (ret JUndefined).

Definition buildRequestContext (pattern : string) (url : URL) (request : Request)
    : M RequestContext :=
  let! m := get_this in
  let params := extractParams (config m) pattern url in
  let queryParams := extractQueryParams url in
  let headers := extractHeaders request in
  let! body := parseRequestBody request in
  ret (mkContext params body queryParams headers request).

Definition resolveEndpointResponse (endpoint : Endpoint) (request : Request)
    : M JsValue :=
  match source endpoint with
  | Handler handler =>
      let! context := buildRequestContext (path endpoint) (req_url request) request in
      run (handler context)
  | StaticFunction response => run response
  | StaticValue response => ret response
  end.

Definition simulateNetworkError {A} (errorType : string) : M A :=
  if bool_decide (errorType = "timeout")
  then throw (new_TypeError "Network request failed: timeout")
  else if bool_decide (errorType = "connection_refused")
  then throw (new_TypeError "Network request failed: connection refused")
  else if bool_decide (errorType = "abort")
  then if hasDOMException
       then throw (mkError DOMException "AbortError" "The operation was aborted")
       else throw (mkError Error "AbortError" "The operation was aborted")
  else throw (new_TypeError "Network request failed").

Definition applyDelay (delay : Z) : M unit :=
  if (0 <? delay)%Z then sleep delay else ret tt.

Definition createMockResponse (endpoint : Endpoint) (url : URL) (request : Request)
    : M ResponseObj :=
  let! m := get_this in
  let delay := default (default 0%Z (globalDelay (config m))) (Mocker.delay endpoint) in
  let! _ := applyDelay delay in
  if match networkError endpoint with
     | Some label => Str.truthy label
     | None => false
     end
  then simulateNetworkError (default EmptyString (networkError endpoint))
  else
    let! responseValue := resolveEndpointResponse endpoint request in
    match responseValue with
    | JNative CResponse handle => ret (NativeResponse handle)
    | _ =>
        let! m := get_this in
        let '(body, status, headers) :=
          normalizeResponse (config m) endpoint responseValue in
        let! response := settle (Fetch.new_Response platform body status headers) in
        ret (NewResponse response)
    end.

(** *** The interceptor installed as [globalThis.fetch] *)

(** [(init?.method || 'GET').toUpperCase()] *)
Definition request_method (call : FetchCall) : string :=
  Str.toUpperCase
    (match call_method call with
     | Some name => if Str.truthy name then name else "GET"
     | None => "GET"
     end).

Definition intercept (call : FetchCall) : M FetchResult :=
  let request := call_request call in
  let url := req_url request in
  let method := request_method call in
  let! m := get_this in
  if negb (isEnabled m) then ret (RealTransport call)
  else
    let! mockEndpoint := findMatchingEndpoint method url request in
    match mockEndpoint with
    | Some endpoint =>
        let! response := createMockResponse endpoint url request in
        ret (Mocked response)
    | None => ret (RealTransport call)
    end.

(** ** Reference definitions used by the statements below *)

(** What [parseRequestBody] delivers, read off the request. *)
Definition delivered_body (request : Request) : JsValue :=
  match req_text request with
  | Throw _ => JUndefined
  | Return text =>
      if bool_decide (text = EmptyString) then JUndefined
      else match JSON_parse text with
           | Some value => value
           | None => JStr text
           end
  end.



(** The verdict of the custom predicate, [true] when there is none. *)
Definition run_predicate (endpoint : Endpoint) (request : Request) : M bool :=
  match match_ endpoint with
  | Some predicate => run (predicate request)
  | None => ret true
  end.

(** The five checks, as facts about the request. *)
Definition query_constraints_hold (endpoint : Endpoint) (url : URL) : Prop :=
  ∀ expected, queryParams endpoint = Some expected →
  ∀ key value, expected !! key = Some value →
    searchParams_get key (searchParams url) = Some value.

Definition header_constraints_hold (endpoint : Endpoint) (request : Request) : Prop :=
  ∀ expected, requestHeaders endpoint = Some expected →
  ∀ key value, expected !! key = Some value →
    extractHeaders request !! Str.toLowerCase key = Some value
    ∧ ∃ name, (name, value) ∈ req_headers request
              ∧ Str.toLowerCase name = Str.toLowerCase key.

(** [a] comes strictly before [b]: higher priority, or the same priority
    and a more specific path. *)
Definition outranks (a b : Candidate) : Prop :=
  (priority_or_0 (cand_endpoint b) < priority_or_0 (cand_endpoint a))%Z
  ∨ (priority_or_0 (cand_endpoint a) = priority_or_0 (cand_endpoint b)
     ∧ (cand_specificity b < cand_specificity a)%Z).

Definition segment_score (segment : string) : Z :=
  if Str.startsWith_ch ":" segment then 1%Z else 10%Z.

(** The ranking as the specification words it: priority descending, then
    specificity descending, then the first definition in registration
    order.  [registered] lists the definitions in the order they were
    registered. *)
Definition outranks_b (a b : Candidate) : bool :=
  (priority_or_0 (cand_endpoint b) <? priority_or_0 (cand_endpoint a))%Z
  || ((priority_or_0 (cand_endpoint a) =? priority_or_0 (cand_endpoint b))%Z
      && (cand_specificity b <? cand_specificity a)%Z).

Fixpoint first_best (cs : list Candidate) : option Candidate :=
  match cs with
  | [] => None
  | c :: rest =>
      match first_best rest with
      | Some later => if outranks_b later c then Some later else Some c
      | None => Some c
      end
  end.

Definition registration_order_winner (registered : list Endpoint)
    (applicable : Endpoint -> bool) : option Endpoint :=
  cand_endpoint <$>
    first_best
      ((fun e => mkCandidate e (calculateSpecificity (path e)))
         <$> List.filter applicable registered).

(** Whether [matchesEndpoint] accepts [endpoint] in world [w]. *)
Definition applicable_in (w : World) (method : string) (url : URL)
    (request : Request) (endpoint : Endpoint) : bool :=
  match (matchesEndpoint endpoint method url request w).1 with
  | Return true => true
  | _ => false
  end.

(** The definitions of [eps] that apply, in their order, each one tested
    in the world the tests before it have left. *)
Fixpoint accepted_in_turn (method : string) (url : URL) (request : Request)
    (eps : list Endpoint) (w : World) : list Endpoint :=
  match eps with
  | [] => []
  | endpoint :: rest =>
      (if applicable_in w method url request endpoint then [endpoint] else [])
      ++ accepted_in_turn method url request rest
           (matchesEndpoint endpoint method url request w).2
  end.




(** The last value a list of pairs has under [name], the names of the
    list being read through [f]. *)
Fixpoint last_value (f : string -> string) (name : string)
    (pairs : list (string * string)) : option string :=
  match pairs with
  | [] => None
  | (key, value) :: rest =>
      match last_value f name rest with
      | Some later => Some later
      | None => if bool_decide (f key = name) then Some value else None
      end
  end.

(** The value of the last header the request enumerates under [name], a
    name in lower case. *)
Definition last_header (name : string) (enumerated : list (string * string))
    : option string :=
  last_value Str.toLowerCase name enumerated.





End Mocker.

(** ** Configuration, as the constructor and [updateConfig] handle it

    Here a configuration is the object the caller passes: every property
    may be absent, and [baseUrl] is still text. *)

Module Config.

(** A property of an options object: not there, there and [undefined],
    or there with a value. *)
Inductive Field (A : Type) : Type :=
  | Absent
  | Undefined
  | Value (a : A).
Arguments Absent {A}.
Arguments Undefined {A}.
Arguments Value {A} a.

(** Reading the property: [undefined] in the first two cases. *)
Definition read {A} (f : Field A) : option A :=
  match f with
  | Value a => Some a
  | _ => None
  end.

(** One property of [{...a, ...b}]. *)
Definition spread {A} (a b : Field A) : Field A :=
  match b with
  | Absent => a
  | _ => b
  end.

Record Options : Type := mkOptions {
  baseUrl : Field string;
  globalDelay : Field Z;
  globalHeaders : Field (gmap string string);
  logRequests : Field bool;
  defaultPriority : Field Z
}.

(** [s.replace(/\/+$/, '')]: the run of [/] at the end is removed. *)
Fixpoint stripTrailingSlashes (s : string) : string :=
  match s with
  | EmptyString => EmptyString
  | String c s' =>
      match stripTrailingSlashes s' with
      | EmptyString => if Str.ch_eqb c "/" then EmptyString else String c EmptyString
      | rest => String c rest
      end
  end.

Definition normalizeBaseUrl (baseUrl : string) : string :=
  if negb (Str.truthy baseUrl) then EmptyString
  else
    let trimmed := stripTrailingSlashes baseUrl in
    if negb (Str.truthy trimmed) || bool_decide (trimmed = "/") then EmptyString
    else trimmed.

(** [config.baseUrl ? this.normalizeBaseUrl(config.baseUrl) : ''] *)
Definition baseUrl_or_empty (given : option string) : string :=
  match given with
  | Some url => if Str.truthy url then normalizeBaseUrl url else EmptyString
  | None => EmptyString
  end.

Definition createConfig (config : Options) : Options :=
  let defaultHeaders : gmap string string := {["Content-Type" := "application/json"]} in
  mkOptions
    (Value (baseUrl_or_empty (read (baseUrl config))))
    (Value (default 0%Z (read (globalDelay config))))
    (Value (default ∅ (read (globalHeaders config)) ∪ defaultHeaders))
    (Value (default true (read (logRequests config))))
    (Value (default 0%Z (read (defaultPriority config)))).

(** [updateConfig(newConfig)], on the stored configuration [current]. *)
Definition updateConfig (newConfig current : Options) : Options :=
  let updatedConfig :=
    mkOptions (spread (baseUrl current) (baseUrl newConfig))
              (spread (globalDelay current) (globalDelay newConfig))
              (spread (globalHeaders current) (globalHeaders newConfig))
              (spread (logRequests current) (logRequests newConfig))
              (spread (defaultPriority current) (defaultPriority newConfig)) in
  let updatedConfig :=
    match read (baseUrl newConfig) with
    | Some url =>
        mkOptions (Value (baseUrl_or_empty (Some url)))
                  (globalDelay updatedConfig) (globalHeaders updatedConfig)
                  (logRequests updatedConfig) (defaultPriority updatedConfig)
    | None => updatedConfig
    end in
  match read (globalHeaders newConfig) with
  | Some given =>
      mkOptions (baseUrl updatedConfig) (globalDelay updatedConfig)
                (Value (given ∪ default ∅ (read (globalHeaders current))))
                (logRequests updatedConfig) (defaultPriority updatedConfig)
  | None => updatedConfig
  end.

(** [getConfig()]: a copy, whose [globalHeaders] is a copy too. *)
Definition getConfig (current : Options) : Options :=
  mkOptions (baseUrl current) (globalDelay current)
            (Value (default ∅ (read (globalHeaders current))))
            (logRequests current) (defaultPriority current).

End Config.

(** ** Installing and restoring the interceptor

    [globalThis.fetch] holds a function or nothing; each mocker makes one
    interceptor of its own. *)

Module Install.

Inductive FetchImpl : Type :=
  | PlatformFetch (id : nat)       (* a function that was there before *)
  | Interceptor (owner : nat).     (* the [intercept] closure of mocker [owner] *)

#[global] Instance FetchImpl_eq_dec : EqDecision FetchImpl.
Proof. solve_decision. Defined.

(** The fields a mocker keeps about the global slot. *)
Record Saved : Type := mkSaved {
  originalFetch : FetchImpl;
  interceptFetch : option FetchImpl
}.

(** The constructor: it needs a global [fetch], saves it and installs
    its interceptor.  The result is the saved fields and the new content
    of [globalThis.fetch]. *)
Definition construct (owner : nat) (global : option FetchImpl)
    : Outcome (Saved * option FetchImpl) :=
  match global with
  | None =>
      Throw (mkError Error "Error"
               "ApiMocker requires a global fetch implementation. Please provide a fetch polyfill before creating an ApiMocker instance.")
  | Some current =>
      Return (mkSaved current (Some (Interceptor owner)), Some (Interceptor owner))
  end.

(** [restore()]: both branches assign the saved function. *)
Definition restore (saved : Saved) (global : option FetchImpl) : option FetchImpl :=
  if bool_decide (is_Some (interceptFetch saved) ∧ global = interceptFetch saved)
  then Some (originalFetch saved)
  else Some (originalFetch saved).

End Install.

(** ** More reference definitions *)

Section Invariants.

Context {U : Type}.

#[local] Abbreviation Endpoint := (@Endpoint U).

(** The key a definition is stored under. *)
Definition key_of (e : Endpoint) : string := createEndpointKey (method e) (path e).

(** Every key occurs once, and every definition sits under its own key. *)
Definition registry_wf (eps : list (string * list Endpoint)) : Prop :=
  NoDup eps.*1
  ∧ Forall (fun entry => Forall (fun e => key_of e = entry.1) entry.2) eps.

(** A list in descending order of priority. *)
Fixpoint by_priority_desc (l : list Endpoint) : Prop :=
  match l with
  | [] => True
  | a :: l' =>
      Forall (fun b => (priority_or_0 b <= priority_or_0 a)%Z) l'
      ∧ by_priority_desc l'
  end.

(** The delay [createMockResponse] applies: the definition's, else the
    global one, else none. *)
Definition effective_delay (cfg : MockConfig) (e : Endpoint) : Z :=
  default (default 0%Z (globalDelay cfg)) (delay e).

(** The endpoints of the registry in the order they are traversed. *)
Definition traversal (m : @ApiMocker U) : list Endpoint := mjoin ((endpoints m).*2).

End Invariants.

Fixpoint count_slashes (s : string) : nat :=
  match s with
  | EmptyString => 0
  | String c s' => (if Str.ch_eqb c "/" then 1 else 0) + count_slashes s'
  end.

(** [n] times [/]. *)
Fixpoint slashes (n : nat) : string :=
  match n with
  | O => EmptyString
  | S n' => String "/" (slashes n')
  end.

(** The literal [/] among the items of a compiled pattern. *)
Fixpoint item_slashes (r : list Regex.item) : nat :=
  match r with
  | [] => 0
  | Regex.Lit c :: r' => (if Str.ch_eqb c "/" then 1 else 0) + item_slashes r'
  | Regex.Seg :: r' => item_slashes r'
  end.

(** One header of a configuration. *)
Definition header_of (c : Config.Options) (key : string) : option string :=
  Config.read (Config.globalHeaders c) ≫= (.!! key).

Section Serving.

Context {U : Type}.
Context (JSON_parse : string -> option JsValue).

(** The world once the delay of a definition has been slept. *)
Definition delayed (e : @Endpoint U) (w : @World U) : @World U :=
  mkWorld (this w) (user w)
    (slept w + Z.max 0 (effective_delay (config (this w)) e)).

(** The context a handler of [e] is called with. *)
Definition context_of (cfg : MockConfig) (e : @Endpoint U) (request : Request)
    : RequestContext :=
  mkContext (extractParams cfg (path e) (req_url request))
            (delivered_body JSON_parse request)
            (extractQueryParams (req_url request))
            (extractHeaders request)
            request.

(** Is the value an instance of the platform's [Response]? *)
Definition native_response (v : JsValue) : option nat :=
  match v with
  | JNative CResponse handle => Some handle
  | _ => None
  end.

End Serving.

(** ** Sample data *)

Module Sample.

(** A [JSON.parse] that knows three literals. *)
Definition parse_literal (text : string) : option JsValue :=
  if bool_decide (text = "null") then Some JNull
  else if bool_decide (text = "true") then Some (JBool true)
  else if bool_decide (text = "false") then Some (JBool false)
  else None.

(** A platform in the manner of Node.js: no header name is forbidden in
    a response, a platform object used as a body carries no type. *)
Definition platform : Platform :=
  mkPlatform (fun _ _ => Return None) (fun _ => false)
    (fun _ _ _ => Throw (new_TypeError "Invalid arguments"))
    (fun _ => "init['status'] must be in the range of 200 to 599, inclusive.")
    (fun _ => "Headers.append: invalid header")
    (fun _ => "Response constructor: Invalid response status code").

Definition config0 : MockConfig :=
  mkConfig None (Some 0%Z) (Some {["Content-Type" := "application/json"]})
    false (Some 0%Z).

Definition empty_mocker : @ApiMocker unit := mkMocker [] config0 true ∅.

(** A static [GET] definition answering [tag]. *)
Definition get_ (path_ : string) (tag : string) : @Endpoint unit :=
  mkEndpoint path_ "GET" (StaticValue (JStr tag)) None None None None None None
    None None.

Definition get_request (path_ : string) (query : list (string * string)) : Request :=
  mkRequest (mkURL path_ query) [] (Return EmptyString).

Definition get_call (path_ : string) (query : list (string * string)) : FetchCall :=
  mkCall None (get_request path_ query).

Definition world_of (m : @ApiMocker unit) : @World unit := mkWorld m tt 0%Z.

(** Three registrations, in this order: an admin-only [/users/:id], then
    [/users/:name], then a second [/users/:id]. *)
Definition admin_only : @Endpoint unit :=
  mkEndpoint "/users/:id" "GET" (StaticValue (JStr "X")) None None None None
    (Some {["role" := "admin"]}) None None None.

Definition by_name : @Endpoint unit := get_ "/users/:name" "B".
Definition by_id : @Endpoint unit := get_ "/users/:id" "A".

Definition three_registrations : @ApiMocker unit :=
  mock by_id (mock by_name (mock admin_only empty_mocker)).

(** A definition that always fails with a timeout. *)
Definition timing_out : @Endpoint unit :=
  mkEndpoint "/timeout" "GET" (StaticValue (JObj ∅)) None None None None None None
    None (Some "timeout").

(** A definition whose predicate throws. *)
Definition boom : JsError := mkError Error "Error" "boom".

Definition throwing_predicate : Request -> @Script unit bool :=
  fun _ s => (Throw boom, s).

Definition guarded : @Endpoint unit :=
  mkEndpoint "/guarded" "GET" (StaticValue (JStr "never")) None None None None
    None None (Some throwing_predicate) None.

Definition me_and_id : @ApiMocker unit :=
  mock (get_ "/users/me" "static") (mock (get_ "/users/:id" "dynamic") empty_mocker).

Definition guarded_mocker : @ApiMocker unit := mock guarded empty_mocker.

(** The candidates a [GET /users/me] collects from [me_and_id]. *)
Definition two_candidates : list (@Candidate unit) :=
  [mkCandidate (with_priority (get_ "/users/:id" "dynamic") 0) 11;
   mkCandidate (with_priority (get_ "/users/me" "static") 0) 20].


(** Definitions in the manner of the repository's test suite. *)

Definition user1 : JsValue := JObj {["id" := JNum 1; "name" := JStr "Test User"]}.

Definition static_user : @ApiMocker unit :=
  mock (mkEndpoint "/users/1" "GET" (StaticValue user1) None None None None None
          None None None) empty_mocker.

Definition created_user : @ApiMocker unit :=
  mock (mkEndpoint "/users" "POST" (StaticValue user1) (Some 201%Z) None None None
          None None None None) empty_mocker.

Definition echo_id : RequestContext -> @Script unit JsValue :=
  fun context s =>
    (Return (JObj {["id" := JStr (default EmptyString (ctx_params context !! "id"))]}), s).

Definition dynamic_user : @ApiMocker unit :=
  mockDynamic (mkEndpoint "/users/:id" "GET" (Handler echo_id) None None None None
                 None None None None) empty_mocker.

Definition with_priority_of (p : Z) (tag : string) : @Endpoint unit :=
  mkEndpoint "/users/:id" "GET" (StaticValue (JStr tag)) None None None (Some p)
    None None None None.

Definition generic_then_specific : @ApiMocker unit :=
  mock (with_priority_of 10 "specific") (mock (with_priority_of 1 "generic") empty_mocker).

Definition by_role (role tag : string) : @Endpoint unit :=
  mkEndpoint "/users" "GET" (StaticValue (JStr tag)) None None None None
    (Some {["role" := role]}) None None None.

Definition admins_and_users : @ApiMocker unit :=
  mock (by_role "user" "regular") (mock (by_role "admin" "admin") empty_mocker).

Definition by_accept (accept tag : string) : @Endpoint unit :=
  mkEndpoint "/api/data" "GET" (StaticValue (JStr tag)) None None None None None
    (Some {["Accept" := accept]}) None None.

Definition json_and_xml : @ApiMocker unit :=
  mock (by_accept "application/xml" "xml") (mock (by_accept "application/json" "json")
                                                empty_mocker).

(** A base URL [https://api.example.com/v1]. *)
Definition config_v1 : MockConfig :=
  mkConfig (Some (mkURL "/v1" [])) (Some 0%Z)
    (Some {["Content-Type" := "application/json"]}) false (Some 0%Z).

Definition timeout_mocker : @ApiMocker unit := mock timing_out empty_mocker.

Definition echo_body : RequestContext -> @Script unit JsValue :=
  fun context s => (Return (JArr [ctx_body context]), s).

Definition body_mocker : @ApiMocker unit :=
  mockDynamic (mkEndpoint "/echo" "POST" (Handler echo_body) None None None None
                 None None None None) empty_mocker.

Definition post_call (text : string) : FetchCall :=
  mkCall (Some "POST") (mkRequest (mkURL "/echo" []) [] (Return text)).

Definition default_headers : gmap string string :=
  {["Content-Type" := "application/json"]}.

(** The response [new Response] makes of a body, a status and the default
    headers. *)
Definition response (body : Body) (code : Z) : ResponseObj :=
  NewResponse (mkResponse body code default_headers None).

End Sample.

Module Sample2.

(** A handler that writes to the shared state and then throws. *)
Definition failing : RequestContext -> @Script unit JsValue :=
  fun _ s => (Throw Sample.boom, (<["seen" := JBool true]> s.1, s.2)).

Definition seen : gmap string JsValue := {["seen" := JBool true]}.

Definition failing_endpoint : @Endpoint unit :=
  mkEndpoint "/fails" "GET" (Handler failing) None None None None None None None None.

Definition failing_mocker : @ApiMocker unit := mockDynamic failing_endpoint Sample.empty_mocker.

(** A definition answering with a [Response] instance of its own. *)
Definition ready_made : @Endpoint unit :=
  mkEndpoint "/custom-response" "GET" (StaticValue (JNative CResponse 7)) (Some 404%Z)
    None (Some {["X-Ignored" := "1"]}) None None None None None.

Definition ready_made_mocker : @ApiMocker unit := mock ready_made Sample.empty_mocker.

Definition user_endpoint : @Endpoint unit :=
  mkEndpoint "/users/1" "GET" (StaticValue Sample.user1) None None None None None
    None None None.

(** A definition that answers a JSON body with the status 204. *)
Definition no_content : @Endpoint unit :=
  mkEndpoint "/gone" "GET" (StaticValue Sample.user1) (Some 204%Z) None None None None
    None None None.

Definition dynamic_endpoint : @Endpoint unit :=
  mkEndpoint "/users/:id" "GET" (Handler Sample.echo_id) None None None None
    None None None None.

Definition accept_request : Request :=
  mkRequest (mkURL "/api/data" []) [("Accept", "application/json")] (Return EmptyString).

Definition generic_only : @ApiMocker unit :=
  mock (Sample.with_priority_of 1 "generic") Sample.empty_mocker.






End Sample2.

(** * Properties *)

Section Proofs.
Context {U : Type}.
Context (JSON_parse : string -> option JsValue).
Context (hasDOMException : bool).
Context (platform : Platform).

#[local] Abbreviation World := (@World U).
#[local] Abbreviation Endpoint := (@Endpoint U).
#[local] Abbreviation Candidate := (@Candidate U).
#[local] Abbreviation M := (@M U).
#[local] Abbreviation ApiMocker := (@ApiMocker U).

Lemma truthy_empty s : Str.truthy s = negb (bool_decide (s = EmptyString)).
Proof. by destruct s. Qed.

(** C8.  The body handed to a dynamic handler: [parseRequestBody] never
    throws; an empty text gives [undefined], a text [JSON.parse] accepts
    gives the decoded value, any other text is delivered as it is (and a
    body that cannot be read gives [undefined]).  [buildRequestContext]
    puts exactly that value in the context. *)
Theorem parseRequestBody_total (request : Request) (w : World) :
  parseRequestBody JSON_parse request w = (Return (delivered_body JSON_parse request), w)
  ∧ (∀ pattern url, ∃ context,
        buildRequestContext JSON_parse pattern url request w = (Return context, w)
        ∧ ctx_body context = delivered_body JSON_parse request).
Proof.
  assert (parseRequestBody JSON_parse request w = (Return (delivered_body JSON_parse request), w)) as Hp.
  { unfold parseRequestBody, delivered_body, try_catch, bind, settle, ret, throw.
    destruct (req_text request) as [text|e]; [|done].
    rewrite truthy_empty. case_bool_decide; simpl; [done|].
    by destruct (JSON_parse text). }
  split; [done|]. intros pattern url. eexists. split.
  - unfold buildRequestContext, bind, get_this. rewrite Hp. reflexivity.
  - done.
Qed.

(** C3.  [isMockResponse] accepts exactly the plain objects that have a
    [data] key and a [status] or a [headers] key; for those
    [normalizeResponse] uses the [data], [status] and [headers] fields,
    for every other value the value itself is the payload.  An object
    with a [data] key only is an ordinary payload, serialised whole. *)
Theorem isMockResponse_shape (cfg : MockConfig) (endpoint : Endpoint) (value : JsValue) :
  (isMockResponse value = true ↔
     ∃ props, value = JObj props ∧ is_Some (props !! "data") ∧
              (is_Some (props !! "status") ∨ is_Some (props !! "headers")))
  ∧ normalizeResponse cfg endpoint value =
      (if isMockResponse value
       then (serializeBody (get_prop "data" value),
             coalesce (get_prop "status" value)
               (coalesce (optional_number (status endpoint)) (JNum 200)),
             mergeHeaders cfg [optional_record (headers endpoint); get_prop "headers" value])
       else (serializeBody value,
             coalesce (optional_number (status endpoint)) (JNum 200),
             mergeHeaders cfg [optional_record (headers endpoint)]))
  ∧ (∀ data, isMockResponse (JObj {["data" := data]}) = false
             ∧ (normalizeResponse cfg endpoint (JObj {["data" := data]})).1.1
               = BodyJson (JObj {["data" := data]})).
Proof.
  split; [|split].
  - unfold isMockResponse. split.
    + intros H. destruct value as [| | | | | |props|[] h]; simpl in H; try done.
      exists props. split; [done|].
      apply andb_prop in H as [H1 H2]. apply bool_decide_eq_true in H1.
      split; [done|]. apply orb_prop in H2 as [H2|H2];
        apply bool_decide_eq_true in H2; auto.
    + intros (props & -> & Hd & Hs). simpl.
      rewrite (bool_decide_eq_true_2 _ Hd). simpl.
      destruct Hs as [Hs|Hs]; rewrite (bool_decide_eq_true_2 _ Hs); simpl;
        [done|by rewrite orb_true_r].
  - unfold normalizeResponse. by destruct (isMockResponse value).
  - intros data.
    assert (isMockResponse (JObj {["data" := data]}) = false) as Hno.
    { unfold isMockResponse. simpl.
      rewrite lookup_singleton_eq. simpl.
      rewrite !lookup_singleton_ne by done. done. }
    split; [done|]. unfold normalizeResponse. by rewrite Hno.
Qed.

(** ** Assignments to plain objects *)

Lemma Record_set_unfold (key value : string) (obj : gmap string string) :
  obj !! "__proto__" = None →
  Record_set key value obj
  = if bool_decide (key = "__proto__") then obj else <[key := value]> obj.
Proof.
  intros Hobj. unfold Record_set. case_bool_decide as Hk.
  - subst key. by rewrite Hobj.
  - by destruct (obj !! key).
Qed.

Lemma Record_set_proto (key value : string) (obj : gmap string string) :
  obj !! "__proto__" = None → Record_set key value obj !! "__proto__" = None.
Proof.
  intros Hobj. rewrite Record_set_unfold by done.
  case_bool_decide; [done|]. by rewrite lookup_insert_ne.
Qed.

Lemma fold_keeps_proto {A} (step : gmap string string → A → gmap string string)
    (l : list A) (h0 : gmap string string) :
  (∀ h a, h !! "__proto__" = None → step h a !! "__proto__" = None) →
  h0 !! "__proto__" = None →
  foldl step h0 l !! "__proto__" = None.
Proof.
  intros Hstep. revert h0. induction l as [|a l IH]; intros h0 H0; [done|].
  simpl. apply IH. by apply Hstep.
Qed.

Lemma last_value_origin f name pairs value :
  last_value f name pairs = Some value →
  ∃ key, (key, value) ∈ pairs ∧ f key = name.
Proof.
  induction pairs as [|[k v] l IH]; [done|]. simpl.
  destruct (last_value f name l) as [later|].
  - intros [= ->]. destruct IH as (key & Hin & Hkey); [done|].
    exists key. split; [by right|done].
  - case_bool_decide as Hk; [|done]. intros [= ->].
    exists k. split; [left|done].
Qed.



Lemma foldl_Record_set_lookup (f : string → string) (l : list (string * string))
    (h0 : gmap string string) name :
  h0 !! "__proto__" = None →
  foldl (fun h '(k, v) => Record_set (f k) v h) h0 l !! name =
  if bool_decide (name = "__proto__") then None
  else match last_value f name l with
       | Some x => Some x
       | None => h0 !! name
       end.
Proof.
  revert h0. induction l as [|[k v] l IH]; intros h0 H0; simpl.
  - case_bool_decide; [by subst|done].
  - rewrite IH by (by apply Record_set_proto).
    case_bool_decide as Hname; [done|].
    destruct (last_value f name l); [done|].
    rewrite Record_set_unfold by done.
    case_bool_decide as Hk.
    + rewrite bool_decide_eq_false_2; [done|congruence].
    + case_bool_decide as Hkn.
      * subst name. by rewrite lookup_insert_eq.
      * by rewrite lookup_insert_ne.
Qed.


Lemma extractHeaders_lookup (request : Request) name :
  extractHeaders request !! name =
  if bool_decide (name = "__proto__") then None
  else last_header name (req_headers request).
Proof.
  unfold extractHeaders.
  unfold last_header.
  rewrite (foldl_Record_set_lookup Str.toLowerCase) by done.
  case_bool_decide; [done|].
  by destruct (last_value Str.toLowerCase name (req_headers request)).
Qed.

(** ** Merging headers *)


#[local] Abbreviation assign :=
  (fun (headers : PlainObject) '((key, value) : string * JsValue) =>
     Object_set key value headers).











(** C5.  A definition with a network-error label makes
    [createMockResponse] throw, whatever its response source: the
    callbacks' world is untouched, so no payload was built.  [timeout]
    and [connection_refused] throw [TypeError]s with their own messages,
    [abort] an error named [AbortError], any other label the generic
    [TypeError]. *)
Theorem networkError_always_fails (endpoint : Endpoint) (label : string)
    (url : URL) (request : Request) (w : World) :
  networkError endpoint = Some label →
  label ≠ EmptyString →
  ∃ e w',
    createMockResponse JSON_parse hasDOMException platform endpoint url request w
      = (Throw e, w')
    ∧ this w' = this w ∧ user w' = user w
    ∧ (label = "timeout" → e = new_TypeError "Network request failed: timeout")
    ∧ (label = "connection_refused" →
         e = new_TypeError "Network request failed: connection refused")
    ∧ (label = "abort" →
         e = mkError (if hasDOMException then DOMException else Error)
               "AbortError" "The operation was aborted")
    ∧ (label ∉ ["timeout"; "connection_refused"; "abort"] →
         e = new_TypeError "Network request failed").
Proof.
  intros Hlabel Hne.
  unfold createMockResponse, bind, get_this. rewrite Hlabel. simpl.
  assert (Str.truthy label = true) as -> by (by destruct label).
  set (d := default (default 0%Z (globalDelay (config (this w)))) (delay endpoint)).
  assert (∃ w', applyDelay d w = (Return tt, w') ∧ this w' = this w ∧ user w' = user w)
    as (w' & -> & Hthis & Huser).
  { unfold applyDelay, sleep, ret. destruct (0 <? d)%Z; eauto. }
  unfold simulateNetworkError, throw.
  repeat case_bool_decide; subst; try destruct hasDOMException;
    (eexists _, w'; split; [reflexivity|]; split; [done|]; split; [done|]);
    repeat split; try done; set_solver.
Qed.

(** C7.  After [clear] the registry has no entry and the shared state is
    empty, both at once, and every call goes to the real transport with
    its own arguments. *)
Theorem clear_resets_everything (m : ApiMocker) (u : U) (t : Z) (call : FetchCall) :
  endpoints (clear m) = []
  ∧ getState (clear m) = ∅
  ∧ intercept JSON_parse hasDOMException platform call (mkWorld (clear m) u t)
    = (Return (RealTransport call), mkWorld (clear m) u t).
Proof.
  split; [done|]. split; [done|].
  unfold intercept, bind, get_this. simpl.
  destruct (isEnabled m); simpl; [|done].
  unfold findMatchingEndpoint, bind, get_this. simpl. done.
Qed.

(** ** Query parameters *)


Lemma matchesQueryParams_spec expected url :
  matchesQueryParams expected url = true ↔
  ∀ key value, expected !! key = Some value →
               searchParams_get key (searchParams url) = Some value.
Proof.
  unfold matchesQueryParams. rewrite forallb_forall. split.
  - intros H key value Hkv.
    specialize (H (key, value)). simpl in H.
    apply bool_decide_eq_true in H; [done|].
    apply list_elem_of_In. by apply elem_of_map_to_list.
  - intros H [key value] Hin. apply bool_decide_eq_true_2.
    apply H. apply elem_of_map_to_list. by apply list_elem_of_In.
Qed.

Lemma parseRequestBody_returns (request : Request) (w : World) :
  parseRequestBody JSON_parse request w = (Return (delivered_body JSON_parse request), w).
Proof.
  unfold parseRequestBody, delivered_body, try_catch, bind, settle, ret, throw.
  destruct (req_text request) as [text|e]; [|done].
  rewrite truthy_empty. case_bool_decide; simpl; [done|].
  by destruct (JSON_parse text).
Qed.


Lemma run_keeps_registry {A} (s : Script A) (w : World) :
  endpoints (this (run s w).2) = endpoints (this w)
  ∧ config (this (run s w).2) = config (this w)
  ∧ isEnabled (this (run s w).2) = isEnabled (this w)
  ∧ slept (run s w).2 = slept w.
Proof. unfold run. by destruct (s _) as [o [st u]]. Qed.

Lemma run_predicate_keeps_registry (endpoint : Endpoint) request (w : World) :
  endpoints (this (run_predicate endpoint request w).2) = endpoints (this w)
  ∧ config (this (run_predicate endpoint request w).2) = config (this w)
  ∧ isEnabled (this (run_predicate endpoint request w).2) = isEnabled (this w).
Proof.
  unfold run_predicate. destruct (match_ endpoint) as [predicate|]; [|done].
  pose proof (run_keeps_registry (predicate request) w) as (? & ? & ? & _). done.
Qed.

Lemma matchesHeaders_spec expected request :
  matchesHeaders expected request = true ↔
  ∀ key value, expected !! key = Some value →
               extractHeaders request !! Str.toLowerCase key = Some value.
Proof.
  unfold matchesHeaders. rewrite forallb_forall. split.
  - intros H key value Hkv.
    specialize (H (key, value)). simpl in H.
    apply bool_decide_eq_true in H; [done|].
    apply list_elem_of_In. by apply elem_of_map_to_list.
  - intros H [key value] Hin. apply bool_decide_eq_true_2.
    apply H. apply elem_of_map_to_list. by apply list_elem_of_In.
Qed.

Lemma extractHeaders_origin request key value :
  extractHeaders request !! key = Some value →
  ∃ name, (name, value) ∈ req_headers request ∧ Str.toLowerCase name = key.
Proof.
  rewrite extractHeaders_lookup. case_bool_decide; [done|].
  apply last_value_origin.
Qed.

Lemma matchesEndpoint_unfold (endpoint : Endpoint) method_ url request (w : World) :
  matchesEndpoint endpoint method_ url request w =
  if negb (bool_decide (method endpoint = method_)) then (Return false, w)
  else match run_predicate endpoint request w with
       | (Throw e, w1) => (Throw e, w1)
       | (Return false, w1) => (Return false, w1)
       | (Return true, w1) =>
           (Return (matchesPath (config (this w)) (path endpoint) url
                    && match queryParams endpoint with
                       | Some expected => matchesQueryParams expected url
                       | None => true
                       end
                    && match requestHeaders endpoint with
                       | Some expected => matchesHeaders expected request
                       | None => true
                       end), w1)
       end.
Proof.
  unfold matchesEndpoint. destruct (negb _); [done|].
  unfold bind. fold (run_predicate endpoint request).
  pose proof (run_predicate_keeps_registry endpoint request w) as (_ & Hcfg & _).
  destruct (run_predicate endpoint request w) as [[[]|e] w1]; simpl in *; try done.
  unfold get_this, ret. rewrite Hcfg.
  destruct (matchesPath _ _ _); simpl; [|done].
  destruct (queryParams endpoint) as [q|]; simpl.
  - destruct (matchesQueryParams q url); simpl; [|done].
    destruct (requestHeaders endpoint) as [h|]; simpl; [|done].
    by destruct (matchesHeaders h request).
  - destruct (requestHeaders endpoint) as [h|]; simpl; [|done].
    by destruct (matchesHeaders h request).
Qed.

(** ** A predicate that throws *)

Lemma collectCandidates_throw method_ url request (pre : list Endpoint) endpoint post
    cs (w : World) w0 e w1 :
  collectCandidates method_ url request pre w = (Return cs, w0) →
  matchesEndpoint endpoint method_ url request w0 = (Throw e, w1) →
  collectCandidates method_ url request (pre ++ endpoint :: post) w = (Throw e, w1).
Proof.
  revert cs w. induction pre as [|a pre IH]; intros cs w Hpre Hthrow; simpl in *.
  - unfold ret in Hpre. simplify_eq. unfold bind. by rewrite Hthrow.
  - unfold bind in *.
    destruct (matchesEndpoint a method_ url request w) as [[hit|e'] wa]; [|done].
    destruct (collectCandidates method_ url request pre wa) as [[cs'|e'] wb] eqn:Hrest;
      [|done].
    unfold ret in Hpre. simplify_eq.
    by rewrite (IH _ _ Hrest Hthrow).
Qed.

(** C9.  When the predicate of a definition throws during matching, the
    intercepted call fails with that very error, in the world the
    predicate left: the definitions after it are not tried and the real
    transport is not called. *)
Theorem predicate_throw_propagates (call : FetchCall) (w w0 w1 : World)
    (pre post : list Endpoint) (endpoint : Endpoint) (cs : list Candidate)
    (predicate : Request → Script bool) (e : JsError) :
  isEnabled (this w) = true →
  mjoin ((endpoints (this w)).*2) = pre ++ endpoint :: post →
  collectCandidates (request_method call) (req_url (call_request call))
    (call_request call) pre w = (Return cs, w0) →
  method endpoint = request_method call →
  match_ endpoint = Some predicate →
  run (predicate (call_request call)) w0 = (Throw e, w1) →
  intercept JSON_parse hasDOMException platform call w = (Throw e, w1).
Proof.
  intros Hon Heps Hpre Hmethod Hmatch Hthrow.
  assert (matchesEndpoint endpoint (request_method call) (req_url (call_request call))
            (call_request call) w0 = (Throw e, w1)) as Hm.
  { rewrite matchesEndpoint_unfold, bool_decide_eq_true_2 by done. simpl.
    unfold run_predicate. by rewrite Hmatch, Hthrow. }
  unfold intercept, bind, get_this. rewrite Hon. simpl.
  unfold findMatchingEndpoint, bind, get_this. rewrite Heps.
  fold (request_method call).
  by rewrite (collectCandidates_throw _ _ _ _ _ _ _ _ _ _ _ Hpre Hm).
Qed.

(** ** Ranking *)

Lemma compareCandidates_le (a b : Candidate) :
  (compareCandidates a b <=? 0)%Z = true ↔ ¬ outranks b a.
Proof.
  unfold compareCandidates, outranks. rewrite Z.leb_le.
  destruct (priority_or_0 (cand_endpoint a) =? priority_or_0 (cand_endpoint b))%Z eqn:E;
    simpl; [apply Z.eqb_eq in E|apply Z.eqb_neq in E]; lia.
Qed.

Lemma sort_insert_not_nil {A} (cmp : A → A → Z) x l : sort_insert cmp x l ≠ [].
Proof. destruct l; simpl; [done|]. by destruct (cmp x a <=? 0)%Z. Qed.

Lemma Array_sort_nil {A} (cmp : A → A → Z) l : Array_sort cmp l = [] → l = [].
Proof.
  destruct l as [|x l]; [done|]. unfold Array_sort. simpl.
  intros H. by apply sort_insert_not_nil in H.
Qed.

Lemma Array_sort_head (cs : list Candidate) best rest :
  Array_sort compareCandidates cs = best :: rest →
  ∃ pre post, cs = pre ++ best :: post
    ∧ (∀ d, d ∈ pre → outranks best d)
    ∧ (∀ d, d ∈ post → ¬ outranks d best).
Proof.
  revert best rest. induction cs as [|x cs IH]; intros best rest; [done|].
  unfold Array_sort. simpl. fold (Array_sort compareCandidates cs).
  destruct (Array_sort compareCandidates cs) as [|b r] eqn:Hs.
  - apply Array_sort_nil in Hs as ->. simpl. intros [= <- <-].
    exists [], []. split; [done|]. split; intros d Hd; by apply elem_of_nil in Hd.
  - destruct (IH _ _ eq_refl) as (pre & post & -> & Hpre & Hpost).
    simpl. destruct (compareCandidates x b <=? 0)%Z eqn:Hc.
    + intros [= <- <-]. apply compareCandidates_le in Hc.
      exists [], (pre ++ b :: post). split; [done|].
      split; [intros d Hd; by apply elem_of_nil in Hd|].
      intros d Hd. apply elem_of_app in Hd as [Hd|Hd].
      * specialize (Hpre d Hd). clear -Hpre Hc. unfold outranks in *.
        lia.
      * apply elem_of_cons in Hd as [->|Hd]; [done|].
        specialize (Hpost d Hd). clear -Hpost Hc. unfold outranks in *. lia.
    + intros [= <- <-].
      assert (outranks b x) as Hbx.
      { destruct (decide (outranks b x)) as [|Hn]; [done|].
        apply compareCandidates_le in Hn. congruence. }
      exists (x :: pre), post. split; [done|]. split; [|done].
      intros d Hd. apply elem_of_cons in Hd as [->|Hd]; auto.
Qed.

Lemma calculateSpecificity_sum (path_ : string) :
  calculateSpecificity path_ =
  foldr Z.add 0%Z
    (segment_score <$>
       Str.filterBoolean (Str.split "/" (trimTrailingSlash (normalizePath path_)))).
Proof.
  unfold calculateSpecificity.
  generalize (Str.filterBoolean (Str.split "/" (trimTrailingSlash (normalizePath path_)))).
  intros l.
  assert (∀ acc, foldl (fun specificity segment =>
              if Str.startsWith_ch ":" segment then (specificity + 1)%Z
              else (specificity + 10)%Z) acc l
            = (acc + foldr Z.add 0 (segment_score <$> l))%Z) as H.
  { induction l as [|x l IH]; intros acc; cbn [foldl foldr fmap list_fmap]; [lia|].
    rewrite IH. unfold segment_score. destruct (Str.startsWith_ch ":" x); lia. }
  rewrite H. lia.
Qed.

Lemma collectCandidates_sound method_ url request (eps : list Endpoint)
    (w w' : World) cs :
  collectCandidates method_ url request eps w = (Return cs, w') →
  cand_endpoint <$> cs `sublist_of` eps
  ∧ ∀ c, c ∈ cs → cand_specificity c = calculateSpecificity (path (cand_endpoint c)).
Proof.
  revert w cs. induction eps as [|a eps IH]; intros w cs; simpl.
  - unfold ret. intros [= <- <-]. split; [done|]. intros c Hc. by apply elem_of_nil in Hc.
  - unfold bind.
    destruct (matchesEndpoint a method_ url request w) as [[hit|e] wa]; [|done].
    destruct (collectCandidates method_ url request eps wa) as [[cs'|e] wb] eqn:Hrest;
      [|done].
    unfold ret. intros [= <- <-].
    destruct (IH _ _ Hrest) as [Hsub Hspec].
    destruct hit; simpl.
    + split; [by apply sublist_skip|].
      intros c Hc. apply elem_of_cons in Hc as [->|Hc]; [done|auto].
    + split; [by apply sublist_cons|done].
Qed.

(** The candidates are the definitions that apply, tested in turn. *)
Lemma collectCandidates_accepted method_ url request (eps : list Endpoint)
    (w w' : World) cs :
  collectCandidates method_ url request eps w = (Return cs, w') →
  cand_endpoint <$> cs = accepted_in_turn method_ url request eps w.
Proof.
  revert w cs. induction eps as [|a eps IH]; intros w cs; simpl.
  - unfold ret. by intros [= <- <-].
  - unfold bind, applicable_in.
    destruct (matchesEndpoint a method_ url request w) as [[hit|e] wa]; [|done].
    destruct (collectCandidates method_ url request eps wa) as [[cs'|e] wb] eqn:Hrest;
      [|done].
    unfold ret. intros [= <- <-]. simpl.
    rewrite <- (IH _ _ Hrest). by destruct hit.
Qed.

Lemma matchesEndpoint_without_predicate (endpoint : Endpoint) method_ url request
    (w : World) :
  match_ endpoint = None →
  ∃ hit, matchesEndpoint endpoint method_ url request w = (Return hit, w).
Proof.
  intros Hnone. rewrite matchesEndpoint_unfold. destruct (negb _); [by eexists|].
  unfold run_predicate. rewrite Hnone. by eexists.
Qed.

Lemma collectCandidates_without_predicates method_ url request (eps : list Endpoint)
    (w : World) :
  (∀ endpoint, endpoint ∈ eps → match_ endpoint = None) →
  ∃ cs, collectCandidates method_ url request eps w = (Return cs, w).
Proof.
  induction eps as [|a eps IH]; intros Hpure; simpl; [by eexists|].
  destruct (matchesEndpoint_without_predicate a method_ url request w) as [hit Ha];
    [apply Hpure; left|].
  destruct IH as [cs Hcs]; [intros e He; apply Hpure; by right|].
  unfold bind. rewrite Ha, Hcs. by eexists.
Qed.

Lemma accepted_in_turn_without_predicates method_ url request (eps : list Endpoint)
    (w : World) :
  (∀ endpoint, endpoint ∈ eps → match_ endpoint = None) →
  accepted_in_turn method_ url request eps w
  = List.filter (applicable_in w method_ url request) eps.
Proof.
  induction eps as [|a eps IH]; intros Hpure; [done|]. simpl.
  destruct (matchesEndpoint_without_predicate a method_ url request w) as [hit Ha];
    [apply Hpure; left|].
  rewrite Ha. simpl. rewrite IH by (intros e He; apply Hpure; by right).
  by destruct (applicable_in w method_ url request a).
Qed.

(** *** What a registration stores *)

Lemma sort_insert_perm {A} (cmp : A → A → Z) x l : sort_insert cmp x l ≡ₚ x :: l.
Proof.
  induction l as [|y l IH]; simpl; [done|].
  destruct (cmp x y <=? 0)%Z; [done|]. rewrite IH. apply Permutation_swap.
Qed.

Lemma Array_sort_perm {A} (cmp : A → A → Z) l : Array_sort cmp l ≡ₚ l.
Proof.
  induction l as [|x l IH]; [done|]. unfold Array_sort in *. simpl.
  by rewrite sort_insert_perm, IH.
Qed.

Lemma Map_set_new {V} key (v : V) mp :
  Map_has key mp = false → Map_set key v mp = mp ++ [(key, v)].
Proof.
  unfold Map_has. intros H. apply bool_decide_eq_false in H.
  induction mp as [|[k v'] mp IH]; [done|]. simpl in *.
  apply not_elem_of_cons in H as [Hk H].
  rewrite bool_decide_eq_false_2 by done. by rewrite IH.
Qed.

Lemma Map_update_new {V} key (f : V → V) (v : V) mp :
  Map_has key mp = false →
  Map_update key f (mp ++ [(key, v)]) = mp ++ [(key, f v)].
Proof.
  unfold Map_has. intros H. apply bool_decide_eq_false in H.
  induction mp as [|[k v'] mp IH]; simpl in *.
  - by rewrite bool_decide_eq_true_2.
  - apply not_elem_of_cons in H as [Hk H].
    rewrite bool_decide_eq_false_2 by done. by rewrite IH.
Qed.

Lemma Map_get_new {V} key (v : V) mp :
  Map_has key mp = false → Map_get key (mp ++ [(key, v)]) = Some v.
Proof.
  unfold Map_has. intros H. apply bool_decide_eq_false in H.
  induction mp as [|[k v'] mp IH]; simpl in *.
  - by rewrite bool_decide_eq_true_2.
  - apply not_elem_of_cons in H as [Hk H].
    rewrite bool_decide_eq_false_2 by done. auto.
Qed.

Lemma Map_update_flatten {A} key (f : list A → list A) (extra : list A)
    (mp : list (string * list A)) :
  Map_has key mp = true →
  (∀ l, f l ≡ₚ extra ++ l) →
  mjoin ((Map_update key f mp).*2) ≡ₚ extra ++ mjoin (mp.*2).
Proof.
  unfold Map_has. intros H Hf. apply bool_decide_eq_true in H.
  induction mp as [|[k l] mp IH]; simpl in *; [by apply elem_of_nil in H|].
  case_bool_decide as Hk; simpl.
  - by rewrite Hf, (assoc_L (++)).
  - apply elem_of_cons in H as [H|H]; [done|].
    rewrite (IH H). rewrite !(assoc_L (++)).
    apply Permutation_app; [apply Permutation_app_comm|done].
Qed.

Lemma Map_get_has {V} key (mp : list (string * V)) :
  Map_has key mp = true ↔ is_Some (Map_get key mp).
Proof.
  unfold Map_has. rewrite bool_decide_eq_true.
  induction mp as [|[k v] mp IH]; simpl.
  - split; [by intros ?%elem_of_nil|by intros [? ?]].
  - case_bool_decide as Hk.
    + split; [by eauto|]. intros _. subst. by left.
    + rewrite <- IH. rewrite elem_of_cons. split; [|by right].
      by intros [?|?]; [congruence|].
Qed.

Lemma sortEndpointsByPriority_flatten key (eps : list (string * list Endpoint)) :
  mjoin ((sortEndpointsByPriority key eps).*2) ≡ₚ mjoin (eps.*2).
Proof.
  unfold sortEndpointsByPriority.
  destruct (Map_get key eps) as [l|] eqn:Hget; [|done].
  destruct (1 <? length l)%nat; [|done].
  apply (Map_update_flatten key _ []).
  - apply Map_get_has. by rewrite Hget.
  - intros l'. apply Array_sort_perm.
Qed.

(** A registration adds one definition, with its explicit priority or
    else the configured default, and keeps the others. *)
Lemma mock_stores (endpoint : Endpoint) (m : ApiMocker) :
  mjoin ((endpoints (mock endpoint m)).*2) ≡ₚ
  with_priority endpoint
    (default (default 0%Z (defaultPriority (config m))) (priority endpoint))
  :: mjoin ((endpoints m).*2).
Proof.
  unfold mock. cbn [endpoints]. rewrite sortEndpointsByPriority_flatten.
  set (key := createEndpointKey (method endpoint) (path endpoint)).
  set (e' := with_priority endpoint _).
  destruct (Map_has key (endpoints m)) eqn:Hhas; cbn [negb].
  - apply (Map_update_flatten key _ [e']); [done|].
    intros l. by rewrite Permutation_app_comm.
  - rewrite Map_set_new, Map_update_new by done.
    rewrite fmap_app, join_app. simpl.
    rewrite ?app_nil_r. apply Permutation_app_comm.
Qed.

Lemma Map_get_update {V} key (f : V → V) (mp : list (string * V)) :
  Map_get key (Map_update key f mp) = f <$> Map_get key mp.
Proof.
  induction mp as [|[k v] mp IH]; [done|]. simpl.
  case_bool_decide as Hk; simpl.
  - by rewrite bool_decide_eq_true_2.
  - by rewrite bool_decide_eq_false_2.
Qed.

Lemma Map_update_update {V} key (f g : V → V) (mp : list (string * V)) :
  Map_update key g (Map_update key f mp) = Map_update key (g ∘ f) mp.
Proof.
  induction mp as [|[k v] mp IH]; [done|]. simpl.
  case_bool_decide as Hk; simpl.
  - by rewrite bool_decide_eq_true_2.
  - by rewrite bool_decide_eq_false_2, IH.
Qed.

Lemma Map_update_ext {V} key (f g : V → V) (mp : list (string * V)) :
  (∀ v, Map_get key mp = Some v → f v = g v) →
  Map_update key f mp = Map_update key g mp.
Proof.
  induction mp as [|[k v] mp IH]; [done|]. simpl. intros H.
  case_bool_decide as Hk.
  - by rewrite H.
  - by rewrite IH.
Qed.

(** How a registration changes the registry: a new key goes last, with
    the definition alone under it; under a key already there the
    definition is appended and the list sorted again, in place. *)
Lemma mock_registry (endpoint : Endpoint) (m : ApiMocker) :
  endpoints (mock endpoint m) =
  let key := createEndpointKey (method endpoint) (path endpoint) in
  let stored :=
    with_priority endpoint
      (default (default 0%Z (defaultPriority (config m))) (priority endpoint)) in
  if Map_has key (endpoints m)
  then Map_update key
         (fun l => Array_sort (fun a b => (priority_or_0 b - priority_or_0 a)%Z)
                     (l ++ [stored]))
         (endpoints m)
  else endpoints m ++ [(key, [stored])].
Proof.
  unfold mock. cbn [endpoints].
  set (key := createEndpointKey (method endpoint) (path endpoint)).
  set (stored := with_priority endpoint _). cbv zeta.
  destruct (Map_has key (endpoints m)) eqn:Hhas; cbn [negb].
  - apply Map_get_has in Hhas as [l Hl].
    unfold sortEndpointsByPriority. rewrite Map_get_update, Hl. simpl.
    destruct (1 <? length (l ++ [stored]))%nat eqn:Hlen.
    + by rewrite Map_update_update.
    + apply Map_update_ext. intros v Hv. rewrite Hl in Hv. injection Hv as <-.
      apply Nat.ltb_ge in Hlen. rewrite length_app in Hlen. simpl in Hlen.
      destruct l; [done|simpl in Hlen; lia].
  - rewrite Map_set_new, Map_update_new by done.
    unfold sortEndpointsByPriority. by rewrite Map_get_new.
Qed.

(** A definition under a new key is traversed last. *)
Lemma mock_new_key_goes_last (endpoint : Endpoint) (m : ApiMocker) :
  Map_has (createEndpointKey (method endpoint) (path endpoint)) (endpoints m) = false →
  mjoin ((endpoints (mock endpoint m)).*2) =
  mjoin ((endpoints m).*2)
  ++ [with_priority endpoint
        (default (default 0%Z (defaultPriority (config m))) (priority endpoint))].
Proof.
  intros Hnew. unfold mock. cbn [endpoints]. rewrite Hnew. cbn [negb].
  rewrite Map_set_new, Map_update_new by done.
  unfold sortEndpointsByPriority. rewrite Map_get_new by done. simpl.
  rewrite fmap_app, join_app. simpl. by rewrite ?app_nil_r.
Qed.

(** C1.  The winner is the first candidate, in the order the registry is
    traversed, that no other candidate outranks: priority descending,
    then specificity descending, where the specificity of a path is the
    sum of 10 per literal segment and 1 per parameter segment.  The
    candidates are the definitions that apply, all of them and in
    traversal order: each definition of the registry is tested in the
    world the tests before it have left, and when no definition has a
    predicate the candidates are the definitions [matchesEndpoint]
    accepts in the unchanged world.  A registration stores
    the definition with its explicit priority or else the configured
    default: under a new key, which goes last, or into the list of its
    key, which is sorted again by priority and keeps its place. *)
Theorem findMatchingEndpoint_first_best (method_ : string) (url : URL)
    (request : Request) (w w' : World) (cs : list Candidate) :
  collectCandidates method_ url request (mjoin ((endpoints (this w)).*2)) w
    = (Return cs, w') →
  (∀ (endpoint : Endpoint) (m : ApiMocker),
      endpoints (mock endpoint m) =
      let key := createEndpointKey (method endpoint) (path endpoint) in
      let stored :=
        with_priority endpoint
          (default (default 0%Z (defaultPriority (config m))) (priority endpoint)) in
      if Map_has key (endpoints m)
      then Map_update key
             (fun l => Array_sort (fun a b => (priority_or_0 b - priority_or_0 a)%Z)
                         (l ++ [stored]))
             (endpoints m)
      else endpoints m ++ [(key, [stored])])
  ∧ cand_endpoint <$> cs `sublist_of` mjoin ((endpoints (this w)).*2)
  ∧ cand_endpoint <$> cs
    = accepted_in_turn method_ url request (mjoin ((endpoints (this w)).*2)) w
  ∧ ((∀ endpoint, endpoint ∈ mjoin ((endpoints (this w)).*2) → match_ endpoint = None) →
     w' = w
     ∧ cand_endpoint <$> cs
       = List.filter (applicable_in w method_ url request)
           (mjoin ((endpoints (this w)).*2)))
  ∧ (∀ c, c ∈ cs →
        cand_specificity c =
        foldr Z.add 0%Z
          (segment_score <$>
             Str.filterBoolean
               (Str.split "/" (trimTrailingSlash (normalizePath (path (cand_endpoint c)))))))
  ∧ match cs with
    | [] => findMatchingEndpoint method_ url request w = (Return None, w')
    | _ :: _ =>
        ∃ pre best post,
          cs = pre ++ best :: post
          ∧ findMatchingEndpoint method_ url request w
            = (Return (Some (cand_endpoint best)), w')
          ∧ (∀ d, d ∈ pre → outranks best d)
          ∧ (∀ d, d ∈ post → ¬ outranks d best)
    end.
Proof.
  intros Hcs. destruct (collectCandidates_sound _ _ _ _ _ _ _ Hcs) as [Hsub Hspec].
  pose proof (collectCandidates_accepted _ _ _ _ _ _ _ Hcs) as Hall.
  split; [apply mock_registry|]. split; [done|]. split; [done|]. split.
  { intros Hpure.
    destruct (collectCandidates_without_predicates method_ url request _ w Hpure)
      as [cs0 Hcs0].
    rewrite Hcs0 in Hcs. injection Hcs as _ <-. split; [done|].
    by rewrite Hall, accepted_in_turn_without_predicates. }
  split.
  { intros c Hc. rewrite (Hspec c Hc). apply calculateSpecificity_sum. }
  unfold findMatchingEndpoint, bind, get_this. rewrite Hcs.
  destruct cs as [|c cs']; [done|].
  destruct (Array_sort compareCandidates (c :: cs')) as [|best rest] eqn:Hs.
  { by apply Array_sort_nil in Hs. }
  destruct (Array_sort_head _ _ _ Hs) as (pre & post & Heq & Hpre & Hpost).
  exists pre, best, post. by rewrite Heq.
Qed.

End Proofs.

(** ** The path matcher *)

Lemma append_cons c s t : String c s +:+ t = String c (s +:+ t).
Proof. reflexivity. Qed.

Lemma append_assoc (s t u : string) : (s +:+ t) +:+ u = s +:+ (t +:+ u).
Proof. induction s as [|c s IH]; [done|]. by rewrite !append_cons, IH. Qed.

Lemma ch_eqb_eq a b : Str.ch_eqb a b = true ↔ a = b.
Proof. unfold Str.ch_eqb. apply Ascii.eqb_eq. Qed.

Lemma special_facts c :
  Regex.is_special c = true →
  Regex.is_word c = false ∧ Str.ch_eqb c ":" = false.
Proof. destruct c as [[] [] [] [] [] [] [] []]; vm_compute; intros; done. Qed.

Lemma not_special_facts c :
  Regex.is_special c = false →
  Regex.is_name_char c = Regex.is_word c
  ∧ Str.ch_eqb c "$" = false ∧ Str.ch_eqb c "\" = false
  ∧ Str.ch_eqb c "(" = false ∧ Regex.is_syntax c = false
  ∧ Str.ch_eqb c "/" = false.
Proof. destruct c as [[] [] [] [] [] [] [] []]; vm_compute; intros; done. Qed.

Lemma backslash_facts :
  Regex.is_name_char "\" = false ∧ Str.ch_eqb "\" ":" = false
  ∧ Str.ch_eqb "\" "$" = false.
Proof. done. Qed.

Lemma starts_with_name_escape p :
  Regex.starts_with_name (Regex.escape p) = Pattern.starts_with_word p.
Proof.
  destruct p as [|c p]; [done|]. simpl.
  destruct (Regex.is_special c) eqn:E; simpl.
  - by destruct (special_facts c E) as [-> _].
  - by destruct (not_special_facts c E) as [-> _].
Qed.

Lemma read_items_skip n (s1 s2 : string) :
  String.length s1 = n → Regex.read_items n (s1 +:+ s2) = Regex.read_items 0 s2
  ∨ s2 = EmptyString.
Proof.
  revert n. induction s1 as [|c s1 IH]; intros n Hn; simpl in Hn; subst n.
  - by left.
  - destruct s2 as [|d s2]; [by right|].
    destruct (IH _ eq_refl) as [H|H]; [|done]. left.
    rewrite append_cons. simpl. exact H.
Qed.

(** The text built by the two replacements always compiles, to the
    tokens of the pattern. *)
Lemma compiled_pattern (p : string) (in_name : bool) :
  Regex.read_items 0 (Regex.replace_params in_name (Regex.escape p) +:+ "$")
  = Some (Pattern.tokens in_name p).
Proof.
  revert in_name. induction p as [|c p IH]; intros in_name; [done|].
  cbn [Regex.escape Pattern.tokens].
  destruct (Regex.is_special c) eqn:E.
  - destruct (special_facts c E) as [Hw Hc].
    cbn [Regex.replace_params].
    destruct backslash_facts as (-> & -> & Hd).
    rewrite andb_false_r. simpl andb. cbv iota.
    rewrite Hc. simpl andb. cbv iota.
    rewrite !append_cons. cbn [Regex.read_items].
    rewrite Hd. assert (Str.ch_eqb "\" "\" = true) as -> by done.
    rewrite E, IH, Hw, andb_false_r. simpl. done.
  - destruct (not_special_facts c E) as (Hn & Hd & Hb & Hp & Hs & _).
    cbn [Regex.replace_params]. rewrite Hn, starts_with_name_escape.
    destruct (in_name && Regex.is_word c); [apply IH|].
    destruct (Str.ch_eqb c ":" && Pattern.starts_with_word p).
    + rewrite append_assoc.
      change ("([^/]+)" +:+ ?x) with (String "(" ("[^/]+)" +:+ x)).
      cbn [Regex.read_items].
      assert (Str.ch_eqb "(" "$" = false) as -> by done.
      assert (Str.ch_eqb "(" "\" = false) as -> by done.
      assert (Str.ch_eqb "(" "(" = true) as -> by done.
      assert (∀ x, Str.startsWith "[^/]+)" ("[^/]+)" +:+ x) = true) as Hprefix.
      { intros x. vm_compute. reflexivity. }
      rewrite Hprefix.
      destruct (read_items_skip 6 "[^/]+)"
                  (Regex.replace_params true (Regex.escape p) +:+ "$") eq_refl)
        as [->|Hnil].
      * by rewrite IH.
      * by destruct (Regex.replace_params true (Regex.escape p)).
    + rewrite append_cons. cbn [Regex.read_items].
      by rewrite Hd, Hb, Hp, Hs, IH.
Qed.

Lemma matchesPath_tokens (cfg : MockConfig) (pattern : string) (url : URL) :
  matchesPath cfg pattern url =
  Regex.test (Pattern.tokens false (trimTrailingSlash (normalizePath pattern)))
    (trimTrailingSlash (getPathWithoutBase cfg url)).
Proof.
  unfold matchesPath, Regex.RegExp.
  change ("^" +:+ ?x) with (String "^" x). cbv iota.
  change (Str.ch_eqb "^" "^") with true. cbv iota.
  by rewrite compiled_pattern.
Qed.

(** *** Segments *)

Lemma split_split1 (s : string) :
  Str.split "/" s =
  match Pattern.split1 s with
  | (u, None) => [u]
  | (u, Some s') => u :: Str.split "/" s'
  end.
Proof.
  induction s as [|c s IH]; [done|]. simpl.
  destruct (Str.ch_eqb c "/"); [done|].
  rewrite IH. by destruct (Pattern.split1 s) as [u [s'|]].
Qed.

Lemma split_not_nil (s : string) : Str.split "/" s ≠ [].
Proof. rewrite split_split1. by destruct (Pattern.split1 s) as [u [s'|]]. Qed.

Lemma join_cons c w ws :
  ws ≠ [] → Str.join c (w :: ws) = w +:+ String c (Str.join c ws).
Proof. by destruct ws. Qed.

Lemma join_split (s : string) : Str.join "/" (Str.split "/" s) = s.
Proof.
  induction s as [|c s IH]; [done|]. simpl.
  pose proof (split_not_nil s) as Hne.
  destruct (Str.ch_eqb c "/") eqn:E.
  - apply ch_eqb_eq in E as ->. by rewrite join_cons, IH.
  - destruct (Str.split "/" s) as [|w ws]; [done|].
    destruct ws as [|w' ws].
    + simpl in *. by rewrite IH.
    + rewrite join_cons by done. rewrite join_cons in IH by done.
      by rewrite append_cons, IH.
Qed.

Lemma split_slash_free (s : string) : Forall Pattern.slash_free (Str.split "/" s).
Proof.
  induction s as [|c s IH]; simpl; [by constructor|].
  destruct (Str.ch_eqb c "/") eqn:E; [by constructor|].
  pose proof (split_not_nil s) as Hne.
  destruct (Str.split "/" s) as [|w ws]; [done|].
  inversion IH as [|? ? Hw Hws]; subst. constructor; [|done].
  unfold Pattern.slash_free in *. simpl. by rewrite E, Hw.
Qed.

(** *** Tokens of one segment *)

Lemma starts_with_word_app (s q : string) :
  Pattern.starts_with_word q = false →
  Pattern.starts_with_word (s +:+ q) = Pattern.starts_with_word s.
Proof. intros Hq. by destruct s. Qed.

Lemma tokens_literal_app (seg q : string) :
  Pattern.has_token seg = false →
  Pattern.starts_with_word q = false →
  Pattern.tokens false (seg +:+ q)
  = Pattern.literal_items seg ++ Pattern.tokens false q.
Proof.
  intros Hseg Hq. induction seg as [|c seg IH]; [done|].
  simpl in Hseg. apply orb_false_elim in Hseg as [Hc Hseg].
  rewrite append_cons. cbn [Pattern.tokens Pattern.literal_items].
  simpl andb. cbv iota.
  rewrite starts_with_word_app, Hc by done. cbn [app]. by rewrite IH.
Qed.

Lemma tokens_skip_name (name q : string) :
  Str.all_ch Regex.is_word name = true →
  Pattern.tokens true (name +:+ q) = Pattern.tokens true q.
Proof.
  intros Hname. induction name as [|c name IH]; [done|].
  simpl in Hname. apply andb_prop in Hname as [Hc Hname].
  rewrite append_cons. cbn [Pattern.tokens]. rewrite Hc. simpl. auto.
Qed.

Lemma tokens_param_app (seg q : string) :
  Pattern.is_param_segment seg = true →
  Pattern.tokens false (seg +:+ q) = Regex.Seg :: Pattern.tokens true q.
Proof.
  destruct seg as [|c name]; [done|]. cbn [Pattern.is_param_segment].
  intros H. apply andb_prop in H as [H Hname]. apply andb_prop in H as [Hc Hne].
  rewrite append_cons. cbn [Pattern.tokens]. simpl andb. cbv iota.
  rewrite Hc. simpl andb.
  destruct name as [|d name]; [done|].
  assert (Pattern.starts_with_word (String d name +:+ q) = true) as ->.
  { simpl in Hname. apply andb_prop in Hname as [Hd _]. by rewrite append_cons. }
  by rewrite tokens_skip_name.
Qed.

Lemma tokens_at_slash (in_name : bool) (q : string) :
  Pattern.tokens in_name (String "/" q) = Regex.Lit "/" :: Pattern.tokens false q.
Proof. cbn [Pattern.tokens]. by rewrite andb_false_r. Qed.

(** *** Running the items of one segment *)

Lemma test_literal_last (seg s : string) :
  Pattern.slash_free seg →
  Regex.test (Pattern.literal_items seg) s =
  match Pattern.split1 s with
  | (u, None) => bool_decide (seg = u)
  | (_, Some _) => false
  end.
Proof.
  unfold Pattern.slash_free. revert s. induction seg as [|c seg IH]; intros s Hfree.
  - destruct s as [|d s]; [done|]. simpl.
    destruct (Str.ch_eqb d "/"); [done|].
    by destruct (Pattern.split1 s) as [u [s'|]].
  - simpl in Hfree. apply andb_prop in Hfree as [Hc Hfree].
    apply negb_true_iff in Hc.
    destruct s as [|d s]; [done|]. cbn [Pattern.literal_items Regex.test Pattern.split1].
    rewrite IH by done.
    destruct (Str.ch_eqb c d) eqn:E.
    + apply ch_eqb_eq in E as <-. rewrite Hc. simpl.
      destruct (Pattern.split1 s) as [u [s'|]]; [done|].
      apply bool_decide_ext. naive_solver.
    + assert (c ≠ d) as Hcd by (intros ->; by rewrite (proj2 (ch_eqb_eq d d)) in E).
      simpl. destruct (Str.ch_eqb d "/"); [done|].
      destruct (Pattern.split1 s) as [u [s'|]]; [done|].
      symmetry. apply bool_decide_eq_false_2. naive_solver.
Qed.

Lemma test_literal_slash (seg s : string) (T : list Regex.item) :
  Pattern.slash_free seg →
  Regex.test (Pattern.literal_items seg ++ Regex.Lit "/" :: T) s =
  match Pattern.split1 s with
  | (u, Some s') => bool_decide (seg = u) && Regex.test T s'
  | (_, None) => false
  end.
Proof.
  unfold Pattern.slash_free. revert s. induction seg as [|c seg IH]; intros s Hfree.
  - destruct s as [|d s]; [done|]. cbn [Pattern.literal_items app Regex.test Pattern.split1].
    unfold Str.ch_eqb. rewrite Ascii.eqb_sym. fold (Str.ch_eqb d "/").
    destruct (Str.ch_eqb d "/"); [done|].
    by destruct (Pattern.split1 s) as [u [s'|]].
  - simpl in Hfree. apply andb_prop in Hfree as [Hc Hfree].
    apply negb_true_iff in Hc.
    destruct s as [|d s]; [done|].
    cbn [Pattern.literal_items app Regex.test Pattern.split1].
    rewrite IH by done.
    destruct (Str.ch_eqb c d) eqn:E.
    + apply ch_eqb_eq in E as <-. rewrite Hc. simpl.
      destruct (Pattern.split1 s) as [u [s'|]]; [|done].
      f_equal. apply bool_decide_ext. naive_solver.
    + assert (c ≠ d) as Hcd by (intros ->; by rewrite (proj2 (ch_eqb_eq d d)) in E).
      simpl. destruct (Str.ch_eqb d "/"); [done|].
      destruct (Pattern.split1 s) as [u [s'|]]; [|done].
      symmetry. rewrite bool_decide_eq_false_2; [done|naive_solver].
Qed.

Lemma test_param_last (s : string) :
  Regex.test [Regex.Seg] s =
  match Pattern.split1 s with
  | (u, None) => Str.truthy u
  | (_, Some _) => false
  end.
Proof.
  induction s as [|d s IH]; [done|].
  cbn [Regex.test Pattern.split1] in *.
  destruct (Str.ch_eqb d "/"); [done|]. simpl negb. cbv iota.
  rewrite IH. destruct s as [|e s]; [done|].
  cbn [Pattern.split1]. destruct (Str.ch_eqb e "/"); [done|].
  by destruct (Pattern.split1 s) as [u [s'|]].
Qed.

Lemma test_param_slash (s : string) (T : list Regex.item) :
  Regex.test (Regex.Seg :: Regex.Lit "/" :: T) s =
  match Pattern.split1 s with
  | (u, Some s') => Str.truthy u && Regex.test T s'
  | (_, None) => false
  end.
Proof.
  induction s as [|d s IH]; [done|].
  cbn [Regex.test Pattern.split1] in *.
  destruct (Str.ch_eqb d "/") eqn:Ed; [done|]. simpl negb. cbv iota.
  rewrite IH. destruct s as [|e s]; [done|].
  cbn [Pattern.split1].
  unfold Str.ch_eqb at 1. rewrite Ascii.eqb_sym. fold (Str.ch_eqb e "/").
  destruct (Str.ch_eqb e "/"); [by rewrite orb_false_r|].
  by destruct (Pattern.split1 s) as [u [s'|]].
Qed.

(** *** A pattern and a path, segment by segment *)

Lemma append_nil_r (s : string) : s +:+ EmptyString = s.
Proof. induction s as [|c s IH]; [done|]. by rewrite append_cons, IH. Qed.

Lemma segments_match_nil_split (s : string) :
  Pattern.segments_match [] (Str.split "/" s) = false.
Proof.
  pose proof (split_not_nil s). by destruct (Str.split "/" s).
Qed.

Lemma test_tokens_segments (segs : list string) :
  segs ≠ [] →
  Forall (fun seg => Pattern.slash_free seg ∧ Pattern.segment_shaped seg = true) segs →
  ∀ s, Regex.test (Pattern.tokens false (Str.join "/" segs)) s
       = Pattern.segments_match segs (Str.split "/" s).
Proof.
  induction segs as [|seg segs IH]; [done|]. intros _ Hall s.
  inversion Hall as [|? ? [Hfree Hshape] Hrest]; subst.
  rewrite split_split1.
  unfold Pattern.segment_shaped in Hshape.
  destruct segs as [|seg2 segs].
  - cbn [Str.join]. rewrite <- (append_nil_r seg) at 1.
    destruct (Pattern.is_param_segment seg) eqn:Hparam.
    + rewrite tokens_param_app by done. cbn [Pattern.tokens].
      rewrite test_param_last.
      destruct (Pattern.split1 s) as [u [s'|]].
      * pose proof (split_not_nil s') as Hne.
        destruct (Str.split "/" s'); [done|].
        cbn [Pattern.segments_match]. by rewrite andb_false_r.
      * cbn [Pattern.segments_match]. by rewrite Hparam, andb_true_r.
    + simpl in Hshape. apply negb_true_iff in Hshape.
      rewrite tokens_literal_app by done. cbn [Pattern.tokens]. rewrite app_nil_r.
      rewrite test_literal_last by done.
      destruct (Pattern.split1 s) as [u [s'|]].
      * pose proof (split_not_nil s') as Hne.
        destruct (Str.split "/" s'); [done|].
        cbn [Pattern.segments_match]. by rewrite andb_false_r.
      * cbn [Pattern.segments_match]. by rewrite Hparam, andb_true_r.
  - rewrite join_cons by done.
    specialize (IH ltac:(done) Hrest).
    destruct (Pattern.is_param_segment seg) eqn:Hparam.
    + rewrite tokens_param_app by done. rewrite tokens_at_slash.
      rewrite test_param_slash.
      destruct (Pattern.split1 s) as [u [s'|]].
      * rewrite IH. cbn [Pattern.segments_match]. by rewrite Hparam.
      * cbn [Pattern.segments_match]. by rewrite andb_false_r.
    + simpl in Hshape. apply negb_true_iff in Hshape.
      rewrite tokens_literal_app by done. rewrite tokens_at_slash.
      rewrite test_literal_slash by done.
      destruct (Pattern.split1 s) as [u [s'|]].
      * rewrite IH. cbn [Pattern.segments_match]. by rewrite Hparam.
      * cbn [Pattern.segments_match]. by rewrite andb_false_r.
Qed.

Lemma matchesPath_segments (cfg : MockConfig) (pattern : string) (url : URL) :
  Pattern.segment_pattern (trimTrailingSlash (normalizePath pattern)) = true →
  matchesPath cfg pattern url =
  Pattern.segments_match
    (Str.split "/" (trimTrailingSlash (normalizePath pattern)))
    (Str.split "/" (trimTrailingSlash (getPathWithoutBase cfg url))).
Proof.
  intros Hshape. rewrite matchesPath_tokens.
  rewrite <- (join_split (trimTrailingSlash (normalizePath pattern))) at 1.
  apply test_tokens_segments; [apply split_not_nil|].
  unfold Pattern.segment_pattern in Hshape.
  rewrite forallb_forall in Hshape.
  pose proof (split_slash_free (trimTrailingSlash (normalizePath pattern))) as Hfree.
  rewrite Forall_forall in Hfree. apply Forall_forall. intros seg Hseg.
  split; [by apply Hfree|]. apply Hshape. by apply list_elem_of_In.
Qed.

(** *** Binding parameters *)

Lemma param_segment_truthy (part : string) :
  Pattern.is_param_segment part = true → Str.truthy part = true.
Proof. by destruct part. Qed.



Lemma starts_with_colon (part : string) :
  Str.startsWith_ch ":" part = true → part = String ":" (Str.substring1 part).
Proof.
  destruct part as [|c part]; [done|]. simpl. intros H.
  by apply ch_eqb_eq in H as ->.
Qed.

#[local] Abbreviation bind_param :=
  (fun (urlParts : list string) (params : gmap string string)
       '((index, part) : nat * string) =>
     if Str.startsWith_ch ":" part then
       match urlParts !! index with
       | Some value =>
           if Str.truthy value
           then Record_set (Str.substring1 part) value params
           else params
       | None => params
       end
     else params).

Lemma bind_params_no_proto (patternParts urlParts : list string) :
  foldl (bind_param urlParts) (∅ : gmap string string) (imap pair patternParts)
    !! "__proto__" = None.
Proof.
  apply fold_keeps_proto; [|done].
  intros h [index part] Hh. simpl.
  destruct (Str.startsWith_ch ":" part); [|done].
  destruct (urlParts !! index) as [value|]; [|done].
  destruct (Str.truthy value); [|done]. by apply Record_set_proto.
Qed.


(** *** Normal form of a path *)

Lemma normalizePath_leading_slash (path_ : string) :
  Str.startsWith_ch "/" (normalizePath path_) = true.
Proof.
  destruct path_ as [|c rest]; [done|]. unfold normalizePath.
  by destruct (Str.startsWith_ch "/" (String c rest)) eqn:E.
Qed.

Lemma endsWith_append_slash (s : string) : Str.endsWith_ch "/" (s +:+ "/") = true.
Proof.
  induction s as [|c s IH]; [done|]. rewrite append_cons.
  cbn [Str.endsWith_ch]. by destruct (s +:+ "/") eqn:E; [destruct s|].
Qed.

Lemma dropLast_append (s : string) c : Str.dropLast (s +:+ String c EmptyString) = s.
Proof.
  induction s as [|d s IH]; [done|]. rewrite append_cons.
  cbn [Str.dropLast]. destruct (s +:+ String c EmptyString) eqn:E; [by destruct s|].
  by rewrite IH.
Qed.

Lemma length_append (s t : string) :
  String.length (s +:+ t) = String.length s + String.length t.
Proof. induction s as [|c s IH]; [done|]. rewrite append_cons. simpl. by rewrite IH. Qed.

Lemma trimTrailingSlash_strips_one (s : string) :
  s ≠ EmptyString → trimTrailingSlash (s +:+ "/") = s.
Proof.
  intros Hs. unfold trimTrailingSlash.
  rewrite endsWith_append_slash, length_append, dropLast_append.
  destruct s as [|c s]; [done|]. simpl.
  by rewrite Nat.add_1_r.
Qed.


(** * Further properties *)

(** ** Base URL and configuration *)

Lemma strip_no_trailing_slash (s : string) :
  Str.endsWith_ch "/" (Config.stripTrailingSlashes s) = false.
Proof.
  induction s as [|c s IH]; [done|]. simpl.
  destruct (Config.stripTrailingSlashes s) as [|d rest] eqn:E.
  - destruct (Str.ch_eqb c "/") eqn:Ec; [done|]. simpl. exact Ec.
  - exact IH.
Qed.

Lemma strip_decompose (s : string) :
  ∃ n, s = Config.stripTrailingSlashes s +:+ slashes n.
Proof.
  induction s as [|c s [n IH]]; [by exists 0|]. simpl.
  destruct (Config.stripTrailingSlashes s) as [|d rest] eqn:E.
  - change (s = slashes n) in IH.
    destruct (Str.ch_eqb c "/") eqn:Ec.
    + apply ch_eqb_eq in Ec as ->. exists (S n). by rewrite IH.
    + exists n. rewrite append_cons. by rewrite IH.
  - exists n. rewrite append_cons. by rewrite <- IH.
Qed.

Lemma strip_fixed (s : string) :
  Str.endsWith_ch "/" s = false → Config.stripTrailingSlashes s = s.
Proof.
  induction s as [|c s IH]; [done|]. intros H. simpl in *.
  destruct s as [|d s].
  - simpl. by rewrite H.
  - rewrite IH by done. done.
Qed.

Lemma normalizeBaseUrl_is_strip (baseUrl : string) :
  Config.normalizeBaseUrl baseUrl = Config.stripTrailingSlashes baseUrl.
Proof.
  unfold Config.normalizeBaseUrl. destruct baseUrl as [|c s]; [done|].
  cbn [Str.truthy negb].
  pose proof (strip_no_trailing_slash (String c s)) as Hend.
  destruct (Config.stripTrailingSlashes (String c s)) as [|d rest]; [done|].
  cbn [Str.truthy negb orb]. case_bool_decide as Hslash; [|done].
  by rewrite Hslash in Hend.
Qed.

Lemma normalizeBaseUrl_strips_slashes_aux (baseUrl : string) :
  Config.normalizeBaseUrl (Config.normalizeBaseUrl baseUrl)
  = Config.normalizeBaseUrl baseUrl.
Proof.
  rewrite !normalizeBaseUrl_is_strip.
  apply strip_fixed, strip_no_trailing_slash.
Qed.

(** X1.  [normalizeBaseUrl] removes the slashes at the end of a base URL
    and nothing else: the result does not end in [/], the argument is the
    result followed by slashes only, and normalising twice changes
    nothing. *)
Theorem normalizeBaseUrl_strips_slashes (baseUrl : string) :
  Str.endsWith_ch "/" (Config.normalizeBaseUrl baseUrl) = false
  ∧ (∃ n, baseUrl = Config.normalizeBaseUrl baseUrl +:+ slashes n)
  ∧ Config.normalizeBaseUrl (Config.normalizeBaseUrl baseUrl)
    = Config.normalizeBaseUrl baseUrl.
Proof.
  split; [|split; [|apply normalizeBaseUrl_strips_slashes_aux]];
    rewrite normalizeBaseUrl_is_strip;
    [apply strip_no_trailing_slash|apply strip_decompose].
Qed.


Lemma baseUrl_or_empty_idempotent (given : option string) :
  Config.baseUrl_or_empty (Some (Config.baseUrl_or_empty given))
  = Config.baseUrl_or_empty given.
Proof.
  unfold Config.baseUrl_or_empty at 1.
  destruct (Str.truthy (Config.baseUrl_or_empty given)) eqn:E.
  - destruct given as [url|]; [|done]. simpl in *.
    destruct (Str.truthy url); [|done].
    apply normalizeBaseUrl_strips_slashes_aux.
  - by destruct (Config.baseUrl_or_empty given).
Qed.

Lemma baseUrl_or_empty_no_trailing_slash (given : option string) :
  Str.endsWith_ch "/" (Config.baseUrl_or_empty given) = false.
Proof.
  destruct given as [url|]; [|done]. simpl.
  destruct (Str.truthy url); [|done].
  rewrite normalizeBaseUrl_is_strip. apply strip_no_trailing_slash.
Qed.

(** X2.  The constructor's configuration: the base URL never ends in [/];
    a global header reads from the caller's headers and otherwise is the
    default [Content-Type: application/json]; building a configuration
    from one already built changes nothing, and [getConfig] gives it back
    as it is. *)
Theorem createConfig_defaults (config : Config.Options) (key : string) :
  (∃ url, Config.baseUrl (Config.createConfig config) = Config.Value url
          ∧ Str.endsWith_ch "/" url = false)
  ∧ header_of (Config.createConfig config) key =
    match Config.read (Config.globalHeaders config) ≫= (.!! key) with
    | Some value => Some value
    | None => if bool_decide (key = "Content-Type") then Some "application/json" else None
    end
  ∧ Config.createConfig (Config.createConfig config) = Config.createConfig config
  ∧ Config.getConfig (Config.createConfig config) = Config.createConfig config.
Proof.
  split; [|split; [|split; [|reflexivity]]].
  - eexists. split; [reflexivity|]. apply baseUrl_or_empty_no_trailing_slash.
  - unfold header_of. simpl. rewrite lookup_union.
    destruct (Config.read (Config.globalHeaders config)) as [given|]; simpl.
    + destruct (given !! key) as [v|]; simpl.
      * by destruct ({["Content-Type" := "application/json"]} !! key).
      * case_bool_decide as Hk; [subst; by rewrite lookup_singleton_eq|].
        by rewrite lookup_singleton_ne.
    + rewrite lookup_empty. simpl.
      case_bool_decide as Hk; [subst; by rewrite lookup_singleton_eq|].
      by rewrite lookup_singleton_ne.
  - unfold Config.createConfig. cbn [Config.baseUrl Config.globalDelay
      Config.globalHeaders Config.logRequests Config.defaultPriority Config.read default].
    rewrite baseUrl_or_empty_idempotent. unfold id.
    by rewrite <- (assoc_L (∪)), (idemp_L (∪)).
Qed.

(** X3.  [updateConfig] property by property: a property the update does
    not carry keeps its value, one it carries as [undefined] is erased,
    a base URL is normalised again, and given headers are laid over the
    current ones key by key instead of replacing them. *)
Theorem updateConfig_merges (newConfig current : Config.Options) (key : string) :
  header_of (Config.updateConfig newConfig current) key =
    match Config.globalHeaders newConfig with
    | Config.Value given =>
        match given !! key with
        | Some value => Some value
        | None => header_of current key
        end
    | Config.Absent => header_of current key
    | Config.Undefined => None
    end
  ∧ Config.read (Config.baseUrl (Config.updateConfig newConfig current)) =
    match Config.baseUrl newConfig with
    | Config.Value url => Some (Config.baseUrl_or_empty (Some url))
    | Config.Absent => Config.read (Config.baseUrl current)
    | Config.Undefined => None
    end
  ∧ Config.read (Config.globalDelay (Config.updateConfig newConfig current)) =
    match Config.globalDelay newConfig with
    | Config.Value ms => Some ms
    | Config.Absent => Config.read (Config.globalDelay current)
    | Config.Undefined => None
    end
  ∧ Config.read (Config.defaultPriority (Config.updateConfig newConfig current)) =
    match Config.defaultPriority newConfig with
    | Config.Value p => Some p
    | Config.Absent => Config.read (Config.defaultPriority current)
    | Config.Undefined => None
    end.
Proof.
  unfold Config.updateConfig, header_of.
  destruct newConfig as [b d h l p]. cbn [Config.baseUrl Config.globalDelay
    Config.globalHeaders Config.logRequests Config.defaultPriority].
  repeat split.
  - destruct h as [| |given]; destruct b as [| |url]; simpl; try done.
    all: rewrite lookup_union; destruct (given !! key); simpl; try done.
    all: by destruct (default ∅ (Config.read (Config.globalHeaders current)) !! key) eqn:E;
           destruct (Config.read (Config.globalHeaders current)); simpl in *;
           rewrite ?lookup_empty in E; rewrite ?E.
  - by destruct h as [| |given]; destruct b as [| |url].
  - by destruct h as [| |given]; destruct b as [| |url]; destruct d.
  - by destruct h as [| |given]; destruct b as [| |url]; destruct p.
Qed.

(** ** The global slot *)

(** X4.  Without a global [fetch] the constructor throws; with one it
    installs its interceptor, and [restore] puts back exactly the
    function the constructor found, however often it is called and
    whatever sits in the slot.  With two mockers the order matters:
    restoring the second and then the first leaves the original
    function, restoring the first and then the second leaves the first
    mocker's interceptor installed. *)
Theorem restore_puts_back_what_was_saved (a b : nat) (current : Install.FetchImpl)
    (slot : option Install.FetchImpl) :
  Install.construct a None
  = Throw (mkError Error "Error"
             "ApiMocker requires a global fetch implementation. Please provide a fetch polyfill before creating an ApiMocker instance.")
  ∧ match Install.construct a (Some current) with
    | Throw _ => False
    | Return (saved_a, slot_a) =>
        slot_a = Some (Install.Interceptor a)
        ∧ Install.restore saved_a slot = Some current
        ∧ Install.restore saved_a (Install.restore saved_a slot) = Some current
        ∧ match Install.construct b slot_a with
          | Throw _ => False
          | Return (saved_b, slot_b) =>
              slot_b = Some (Install.Interceptor b)
              ∧ Install.restore saved_a (Install.restore saved_b slot_b) = Some current
              ∧ Install.restore saved_b (Install.restore saved_a slot_b)
                = Some (Install.Interceptor a)
          end
    end.
Proof.
  split; [done|]. simpl. unfold Install.restore. simpl.
  repeat split; by repeat case_bool_decide.
Qed.

(** ** The path matcher, for every pattern *)

Lemma tokens_item_slashes (p : string) (in_name : bool) :
  item_slashes (Pattern.tokens in_name p) = count_slashes p.
Proof.
  revert in_name. induction p as [|c p IH]; intros in_name; [done|].
  cbn [Pattern.tokens count_slashes].
  destruct (Str.ch_eqb c "/") eqn:Ec.
  - apply ch_eqb_eq in Ec as ->. rewrite andb_false_r. simpl. by rewrite IH.
  - destruct (in_name && Regex.is_word c); [by rewrite IH|].
    destruct (Str.ch_eqb c ":" && Pattern.starts_with_word p); simpl;
      by rewrite ?Ec, IH.
Qed.

Lemma test_item_slashes (r : list Regex.item) (s : string) :
  Regex.test r s = true → item_slashes r = count_slashes s.
Proof.
  revert s. induction r as [|[c|] r IH]; intros s H.
  - by destruct s.
  - destruct s as [|d s]; [done|]. simpl in H.
    apply andb_prop in H as [Hc H]. apply ch_eqb_eq in Hc as ->.
    simpl. by rewrite (IH _ H).
  - cbn [item_slashes]. induction s as [|d s IHs]; [done|].
    cbn [Regex.test] in H, IHs.
    apply andb_prop in H as [Hd H]. apply negb_true_iff in Hd.
    cbn [count_slashes]. rewrite Hd. simpl.
    apply orb_prop in H as [H|H]; [by apply IH|by apply IHs].
Qed.

(** X5.  Whatever the pattern, a parameter never spans a [/]: when
    [matchesPath] accepts, the normalised pattern and the normalised
    request path have the same number of slashes, hence of segments. *)
Theorem matchesPath_same_depth (cfg : MockConfig) (pattern : string) (url : URL) :
  matchesPath cfg pattern url = true →
  count_slashes (trimTrailingSlash (normalizePath pattern))
  = count_slashes (trimTrailingSlash (getPathWithoutBase cfg url)).
Proof.
  rewrite matchesPath_tokens. intros H.
  apply test_item_slashes in H. by rewrite tokens_item_slashes in H.
Qed.

Lemma test_literal_items (s t : string) :
  Regex.test (Pattern.literal_items s) t = bool_decide (s = t).
Proof.
  revert t. induction s as [|c s IH]; intros [|d t]; try done.
  cbn [Pattern.literal_items Regex.test]. rewrite IH.
  destruct (Str.ch_eqb c d) eqn:E.
  - apply ch_eqb_eq in E as ->. simpl. apply bool_decide_ext. split; congruence.
  - simpl. symmetry. apply bool_decide_eq_false_2. intros [= -> _].
    by rewrite (proj2 (ch_eqb_eq d d)) in E.
Qed.

(** X6.  A pattern without parameter tokens is compared as text: every
    character, the ones with a meaning in regular expressions included,
    stands for itself, and the pattern matches exactly the request path
    equal to it after normalisation. *)
Theorem matchesPath_literal (cfg : MockConfig) (pattern : string) (url : URL) :
  Pattern.has_token (trimTrailingSlash (normalizePath pattern)) = false →
  matchesPath cfg pattern url =
  bool_decide (trimTrailingSlash (normalizePath pattern)
               = trimTrailingSlash (getPathWithoutBase cfg url)).
Proof.
  intros Hlit. rewrite matchesPath_tokens.
  rewrite <- (append_nil_r (trimTrailingSlash (normalizePath pattern))) at 1.
  rewrite tokens_literal_app by done. cbn [Pattern.tokens]. rewrite app_nil_r.
  apply test_literal_items.
Qed.

Lemma endsWith_cons c (s : string) :
  s ≠ EmptyString → Str.endsWith_ch "/" (String c s) = Str.endsWith_ch "/" s.
Proof. by destruct s. Qed.

Lemma trimTrailingSlash_fixed (s : string) :
  Str.endsWith_ch "/" s = false → trimTrailingSlash s = s.
Proof. unfold trimTrailingSlash. intros ->. by rewrite andb_false_r. Qed.

Lemma normal_form_ignores_trailing_slash (p : string) :
  Str.endsWith_ch "/" p = false →
  trimTrailingSlash (normalizePath (p +:+ "/")) = trimTrailingSlash (normalizePath p).
Proof.
  intros Hend. destruct p as [|c p]; [done|].
  assert (normalizePath (String c p +:+ "/") = normalizePath (String c p) +:+ "/") as ->.
  { unfold normalizePath. rewrite append_cons. cbn [Str.startsWith_ch].
    by destruct (Str.ch_eqb c "/"). }
  rewrite trimTrailingSlash_strips_one.
  - symmetry. apply trimTrailingSlash_fixed. unfold normalizePath.
    cbn [Str.startsWith_ch]. destruct (Str.ch_eqb c "/"); [done|].
    by rewrite endsWith_cons.
  - unfold normalizePath. by destruct (Str.startsWith_ch "/" (String c p)).
Qed.

Lemma normalizePath_idempotent (p : string) :
  normalizePath (normalizePath p) = normalizePath p.
Proof.
  destruct p as [|c p]; [done|]. unfold normalizePath.
  destruct (Str.startsWith_ch "/" (String c p)) eqn:E.
  - by rewrite E.
  - done.
Qed.

(** X7.  How a pattern is written at its ends does not matter: a missing
    leading [/] or one added trailing [/] gives the same matches, the
    same bound parameters and the same specificity. *)
Theorem pattern_ends_do_not_matter (cfg : MockConfig) (pattern : string) (url : URL) :
  Str.endsWith_ch "/" pattern = false →
  matchesPath cfg (pattern +:+ "/") url = matchesPath cfg pattern url
  ∧ extractParams cfg (pattern +:+ "/") url = extractParams cfg pattern url
  ∧ calculateSpecificity (pattern +:+ "/") = calculateSpecificity pattern
  ∧ matchesPath cfg (normalizePath pattern) url = matchesPath cfg pattern url
  ∧ extractParams cfg (normalizePath pattern) url = extractParams cfg pattern url
  ∧ calculateSpecificity (normalizePath pattern) = calculateSpecificity pattern.
Proof.
  intros Hend.
  unfold matchesPath, extractParams, calculateSpecificity.
  by rewrite normal_form_ignores_trailing_slash, normalizePath_idempotent.
Qed.

(** ** The base path *)

Lemma startsWith_append (p s : string) : Str.startsWith p (p +:+ s) = true.
Proof.
  induction p as [|c p IH]; [done|]. rewrite append_cons. simpl.
  by rewrite (proj2 (ch_eqb_eq c c)).
Qed.

Lemma slice_from_append (p s : string) :
  Str.slice_from (String.length p) (p +:+ s) = s.
Proof. induction p as [|c p IH]; [done|]. by rewrite append_cons. Qed.

Lemma normalizePath_append (p s : string) :
  normalizePath (normalizePath p +:+ s) = normalizePath p +:+ s.
Proof.
  pose proof (normalizePath_leading_slash p) as H.
  destruct (normalizePath p) as [|d q]; [done|].
  rewrite append_cons. unfold normalizePath. simpl in *. by rewrite H.
Qed.

(** X8.  The base path is taken off the request path as a prefix of
    characters, whether or not it ends at a segment boundary; what is
    left gets its leading [/] back.  A request path always comes out
    with a leading [/]. *)
Theorem base_path_is_a_text_prefix (cfg : MockConfig) (base url : URL)
    (rest : string) :
  baseUrl cfg = Some base →
  pathname base ≠ "/" →
  pathname url = normalizePath (pathname base) +:+ rest →
  getPathWithoutBase cfg url = normalizePath rest
  ∧ Str.startsWith_ch "/" (getPathWithoutBase cfg url) = true.
Proof.
  intros Hbase Hroot Hurl.
  assert (getPathWithoutBase cfg url = normalizePath rest) as H.
  { unfold getPathWithoutBase, getBasePath. rewrite Hbase.
    rewrite bool_decide_eq_false_2 by done.
    rewrite Hurl, normalizePath_append.
    rewrite startsWith_append, slice_from_append.
    assert (Str.truthy (normalizePath (pathname base)) = true) as ->; [|done].
    unfold normalizePath. destruct (pathname base) as [|c p]; [done|].
    by destruct (Str.startsWith_ch "/" (String c p)). }
  split; [done|]. rewrite H. apply normalizePath_leading_slash.
Qed.

(** ** Parameters, headers and query *)

Lemma bind_params_sound (patternParts urlParts : list string) (name value : string) :
  foldl (bind_param urlParts) (∅ : gmap string string) (imap pair patternParts)
    !! name = Some value →
  ∃ i part, patternParts !! i = Some part
            ∧ part = String ":" name
            ∧ urlParts !! i = Some value
            ∧ Str.truthy value = true.
Proof.
  induction patternParts as [|part parts IH] using rev_ind; [done|].
  rewrite imap_app, foldl_app. cbn [imap foldl]. rewrite Nat.add_0_r.
  pose proof (bind_params_no_proto parts urlParts) as Hproto.
  simpl. intros H.
  assert (∀ i p, parts !! i = Some p → (parts ++ [part]) !! i = Some p) as Hweak.
  { intros i p Hp. rewrite lookup_app_l; [done|]. by apply lookup_lt_Some in Hp. }
  destruct (Str.startsWith_ch ":" part) eqn:Hcolon;
    [|destruct (IH H) as (i & p & ? & ? & ? & ?); exists i, p; auto].
  destruct (urlParts !! length parts) as [v|] eqn:Hv;
    [|destruct (IH H) as (i & p & ? & ? & ? & ?); exists i, p; auto].
  destruct (Str.truthy v) eqn:Ht;
    [|destruct (IH H) as (i & p & ? & ? & ? & ?); exists i, p; auto].
  rewrite Record_set_unfold in H by done.
  case_bool_decide as Hspecial;
    [destruct (IH H) as (i & p & ? & ? & ? & ?); exists i, p; auto|].
  destruct (decide (Str.substring1 part = name)) as [Heq|Hne].
  - rewrite Heq, lookup_insert_eq in H. injection H as ->.
    exists (length parts), part. split; [by rewrite lookup_app_r, Nat.sub_diag|].
    split; [by rewrite (starts_with_colon _ Hcolon), Heq|done].
  - rewrite lookup_insert_ne in H by done.
    destruct (IH H) as (i & p & ? & ? & ? & ?); exists i, p; auto.
Qed.

(** X9.  [extractParams] binds nothing of its own making: every entry
    [name -> value] comes from a pattern segment [:name] and is the
    request path's segment at the same index, which is not empty.  This
    holds whether or not the pattern matches the path. *)
Theorem extractParams_sound (cfg : MockConfig) (pattern : string) (url : URL)
    (name value : string) :
  extractParams cfg pattern url !! name = Some value →
  ∃ i,
    Str.filterBoolean (Str.split "/" (trimTrailingSlash (normalizePath pattern))) !! i
      = Some (String ":" name)
    ∧ Str.filterBoolean
        (Str.split "/" (trimTrailingSlash (getPathWithoutBase cfg url))) !! i
      = Some value
    ∧ value ≠ EmptyString.
Proof.
  unfold extractParams. intros H.
  apply bind_params_sound in H as (i & part & Hp & -> & Hu & Ht).
  exists i. split; [done|]. split; [done|]. by destruct value.
Qed.

Lemma lower_ch_idempotent (c : ascii) : Str.lower_ch (Str.lower_ch c) = Str.lower_ch c.
Proof. destruct c as [[] [] [] [] [] [] [] []]; reflexivity. Qed.

Lemma toLowerCase_idempotent (s : string) :
  Str.toLowerCase (Str.toLowerCase s) = Str.toLowerCase s.
Proof.
  unfold Str.toLowerCase. induction s as [|c s IH]; [done|].
  simpl. by rewrite lower_ch_idempotent, IH.
Qed.

(** X10.  The header map given to matching and to handlers has lower-case
    names only: a name with an upper-case letter is never a key of it,
    and every entry is a header of the request under its lower-cased
    name. *)
Theorem extractHeaders_lower_case (request : Request) (key value : string) :
  extractHeaders request !! key = Some value →
  Str.toLowerCase key = key
  ∧ ∃ name, (name, value) ∈ req_headers request ∧ Str.toLowerCase name = key.
Proof.
  intros H. apply extractHeaders_origin in H as (name & Hin & Hname).
  split; [|by exists name]. by rewrite <- Hname, toLowerCase_idempotent.
Qed.

Lemma searchParams_get_app key sp extra value :
  searchParams_get key sp = Some value →
  searchParams_get key (sp ++ extra) = Some value.
Proof.
  induction sp as [|[k v] sp IH]; [done|]. simpl.
  by case_bool_decide.
Qed.

(** X11.  Query constraints look at the declared keys only: parameters
    added after the ones a request has never undo a match, and a
    definition with an empty constraint object accepts every query. *)
Theorem query_constraints_ignore_other_keys (expected : gmap string string)
    (path_ path' : string) (sp extra : list (string * string)) :
  matchesQueryParams expected (mkURL path_ sp) = true →
  matchesQueryParams expected (mkURL path' (sp ++ extra)) = true
  ∧ matchesQueryParams ∅ (mkURL path' extra) = true.
Proof.
  intros H. split; [|done].
  apply matchesQueryParams_spec. intros key value Hk.
  apply searchParams_get_app.
  exact (proj1 (matchesQueryParams_spec _ _) H key value Hk).
Qed.

(** ** The checks of [matchesEndpoint] *)




(** ** Serving a matched definition *)

Section Proofs2.

Context {U : Type}.
Context (JSON_parse : string -> option JsValue).
Context (hasDOMException : bool).
Context (platform : Platform).

#[local] Abbreviation World := (@World U).
#[local] Abbreviation Endpoint := (@Endpoint U).
#[local] Abbreviation Candidate := (@Candidate U).
#[local] Abbreviation ApiMocker := (@ApiMocker U).



Lemma applyDelay_world (e : Endpoint) (w : World) :
  applyDelay (effective_delay (config (this w)) e) w = (Return tt, delayed e w).
Proof.
  unfold applyDelay, delayed, sleep, ret.
  destruct (0 <? effective_delay (config (this w)) e)%Z eqn:E.
  - apply Z.ltb_lt in E. by rewrite Z.max_r by lia.
  - apply Z.ltb_ge in E. rewrite Z.max_l by lia. rewrite Z.add_0_r. by destruct w.
Qed.

Lemma resolveEndpointResponse_unfold (e : Endpoint) (request : Request) (w : World) :
  resolveEndpointResponse JSON_parse e request w =
  match source e with
  | Handler handler => run (handler (context_of JSON_parse (config (this w)) e request)) w
  | StaticFunction response => run response w
  | StaticValue response => (Return response, w)
  end.
Proof.
  unfold resolveEndpointResponse. destruct (source e); [done..|].
  unfold buildRequestContext, bind, get_this. cbv beta iota.
  by rewrite parseRequestBody_returns.
Qed.

Lemma resolve_keeps_registry (e : Endpoint) (request : Request) (w : World) :
  endpoints (this (resolveEndpointResponse JSON_parse e request w).2) = endpoints (this w)
  ∧ config (this (resolveEndpointResponse JSON_parse e request w).2) = config (this w)
  ∧ isEnabled (this (resolveEndpointResponse JSON_parse e request w).2) = isEnabled (this w)
  ∧ slept (resolveEndpointResponse JSON_parse e request w).2 = slept w.
Proof.
  rewrite resolveEndpointResponse_unfold.
  destruct (source e); [done|apply run_keeps_registry..].
Qed.

Lemma simulateNetworkError_throws {A} (label : string) (w : World) :
  ∃ x, @simulateNetworkError U hasDOMException A label w = (Throw x, w).
Proof.
  unfold simulateNetworkError, throw.
  repeat case_bool_decide; try destruct hasDOMException; eauto.
Qed.

(** What [createMockResponse] does with a definition without a
    network-error label. *)
Lemma createMockResponse_unfold (e : Endpoint) (url : URL) (request : Request)
    (w : World) :
  (match networkError e with Some label => Str.truthy label | None => false end) = false →
  createMockResponse JSON_parse hasDOMException platform e url request w =
  match resolveEndpointResponse JSON_parse e request (delayed e w) with
  | (Throw x, w') => (Throw x, w')
  | (Return value, w') =>
      match native_response value with
      | Some handle => (Return (NativeResponse handle), w')
      | None =>
          let '(body, code, merged) := normalizeResponse (config (this w)) e value in
          match Fetch.new_Response platform body code merged with
          | Return r => (Return (NewResponse r), w')
          | Throw x => (Throw x, w')
          end
      end
  end.
Proof.
  intros Hlabel. unfold createMockResponse, bind, get_this.
  fold (effective_delay (config (this w)) e). rewrite applyDelay_world, Hlabel.
  pose proof (resolve_keeps_registry e request (delayed e w)) as (_ & Hcfg & _).
  destruct (resolveEndpointResponse JSON_parse e request (delayed e w))
    as [[value|x] w']; [|done].
  simpl in Hcfg. unfold ret, settle.
  destruct value as [| | | | | | |[] h]; simpl; rewrite ?Hcfg;
    try done;
    destruct (normalizeResponse (config (this w)) e _) as [[body code] merged];
    by destruct (Fetch.new_Response platform body code merged).
Qed.

(** ** The response that is built *)







(** X12.  While the mocker is disabled every call goes to the real
    transport with its own arguments, without any definition being
    looked at; disabling keeps the registry, the configuration and the
    shared state, so enabling again gives the mocker that was there. *)
Theorem disable_bypasses_matching (m : ApiMocker) (u : U) (t : Z) (call : FetchCall) :
  isEnabled m = true →
  intercept JSON_parse hasDOMException platform call (mkWorld (disable m) u t)
  = (Return (RealTransport call), mkWorld (disable m) u t)
  ∧ endpoints (disable m) = endpoints m
  ∧ config (disable m) = config m
  ∧ getState (disable m) = getState m
  ∧ enable (disable m) = m
  ∧ intercept JSON_parse hasDOMException platform call (mkWorld (enable (disable m)) u t)
    = intercept JSON_parse hasDOMException platform call (mkWorld m u t).
Proof.
  intros Hon.
  assert (enable (disable m) = m) as Hback by (destruct m; simpl in *; by subst).
  by rewrite Hback.
Qed.

(** X13.  Whatever a matched definition then does (answer, fail with a
    network error, throw from its handler), [createMockResponse] sleeps
    once, for the definition's delay if it has one (0 included), else
    the global delay, else not at all; a delay that is not positive is
    not slept. *)
Theorem delay_is_slept_once (e : Endpoint) (url : URL) (request : Request) (w : World) :
  slept (createMockResponse JSON_parse hasDOMException platform e url request w).2
  = (slept w
     + Z.max 0 (match delay e with
                | Some ms => ms
                | None => match globalDelay (config (this w)) with
                          | Some ms => ms
                          | None => 0
                          end
                end))%Z.
Proof.
  change (slept (createMockResponse JSON_parse hasDOMException platform e url request w).2
          = slept (delayed e w)).
  destruct (match networkError e with Some label => Str.truthy label | None => false end)
    eqn:Hlabel.
  - unfold createMockResponse, bind, get_this.
    fold (effective_delay (config (this w)) e). rewrite applyDelay_world, Hlabel.
    by destruct (simulateNetworkError_throws (A := ResponseObj)
                   (default EmptyString (networkError e)) (delayed e w)) as [x ->].
  - rewrite createMockResponse_unfold by done.
    pose proof (resolve_keeps_registry e request (delayed e w)) as (_ & _ & _ & Hs).
    destruct (resolveEndpointResponse JSON_parse e request (delayed e w))
      as [[value|x] w']; [|done].
    destruct (native_response value); [done|].
    destruct (normalizeResponse (config (this w)) e value) as [[body code] merged].
    by destruct (Fetch.new_Response platform body code merged).
Qed.

Lemma intercept_unfold_winner (call : FetchCall) (w w1 : World) (e : Endpoint) :
  isEnabled (this w) = true →
  findMatchingEndpoint (request_method call) (req_url (call_request call))
    (call_request call) w = (Return (Some e), w1) →
  intercept JSON_parse hasDOMException platform call w =
  match createMockResponse JSON_parse hasDOMException platform e (req_url (call_request call))
          (call_request call) w1 with
  | (Return response, w') => (Return (Mocked response), w')
  | (Throw x, w') => (Throw x, w')
  end.
Proof.
  intros Hon Hfind. unfold intercept, bind, get_this. rewrite Hon. simpl.
  rewrite Hfind. unfold ret.
  by destruct (createMockResponse _ _ _ _ _ _) as [[?|?] ?].
Qed.

(** X14.  When what a matched definition resolves to fails (its handler
    or response function throws, or the promise it returns rejects),
    the intercepted call fails with that very error, in the world the
    callback left: nothing is wrapped into a response and the real
    transport is not called. *)
Theorem handler_failure_rejects_the_call (call : FetchCall) (w w1 w2 : World)
    (e : Endpoint) (x : JsError) :
  isEnabled (this w) = true →
  findMatchingEndpoint (request_method call) (req_url (call_request call))
    (call_request call) w = (Return (Some e), w1) →
  networkError e = None →
  resolveEndpointResponse JSON_parse e (call_request call) (delayed e w1) = (Throw x, w2) →
  intercept JSON_parse hasDOMException platform call w = (Throw x, w2).
Proof.
  intros Hon Hfind Hlabel Hresolve.
  rewrite (intercept_unfold_winner _ _ _ _ Hon Hfind).
  rewrite createMockResponse_unfold by (by rewrite Hlabel).
  by rewrite Hresolve.
Qed.

(** X15.  A definition that resolves to an instance of the platform's
    [Response] has it returned as it is: neither the definition's status
    and headers nor the global headers are applied. *)
Theorem native_response_is_returned_untouched (call : FetchCall) (w w1 w2 : World)
    (e : Endpoint) (handle : nat) :
  isEnabled (this w) = true →
  findMatchingEndpoint (request_method call) (req_url (call_request call))
    (call_request call) w = (Return (Some e), w1) →
  networkError e = None →
  resolveEndpointResponse JSON_parse e (call_request call) (delayed e w1)
    = (Return (JNative CResponse handle), w2) →
  intercept JSON_parse hasDOMException platform call w
  = (Return (Mocked (NativeResponse handle)), w2).
Proof.
  intros Hon Hfind Hlabel Hresolve.
  rewrite (intercept_unfold_winner _ _ _ _ Hon Hfind).
  rewrite createMockResponse_unfold by (by rewrite Hlabel).
  by rewrite Hresolve.
Qed.

(** X16.  A dynamic handler is called with the context built from the
    request and runs on the shared state as it is; the state it leaves,
    also when it throws, is the shared state afterwards, and the
    registry and the configuration are as before. *)
Theorem handler_shares_the_state (e : Endpoint) (request : Request) (w : World)
    (handler : RequestContext → Script JsValue) (o : Outcome JsValue)
    (st : gmap string JsValue) (u : U) :
  source e = Handler handler →
  handler (context_of JSON_parse (config (this w)) e request) (getState (this w), user w)
    = (o, (st, u)) →
  ∃ w',
    resolveEndpointResponse JSON_parse e request w = (o, w')
    ∧ getState (this w') = st
    ∧ user w' = u
    ∧ endpoints (this w') = endpoints (this w)
    ∧ config (this w') = config (this w).
Proof.
  intros Hsource Hrun. rewrite resolveEndpointResponse_unfold, Hsource.
  unfold run, getState in *. rewrite Hrun. eauto 10.
Qed.

(** ** The winner is a definition that applies *)

Lemma matchesEndpoint_keeps_registry (e : Endpoint) method_ url request (w : World) :
  endpoints (this (matchesEndpoint e method_ url request w).2) = endpoints (this w)
  ∧ config (this (matchesEndpoint e method_ url request w).2) = config (this w)
  ∧ isEnabled (this (matchesEndpoint e method_ url request w).2) = isEnabled (this w).
Proof.
  rewrite matchesEndpoint_unfold. destruct (negb _); [done|].
  pose proof (run_predicate_keeps_registry e request w) as H.
  by destruct (run_predicate e request w) as [[[]|x] w1].
Qed.

Lemma matchesEndpoint_true (e : Endpoint) method_ url request (w w' : World) :
  matchesEndpoint e method_ url request w = (Return true, w') →
  method e = method_
  ∧ matchesPath (config (this w)) (path e) url = true
  ∧ query_constraints_hold e url
  ∧ header_constraints_hold e request.
Proof.
  rewrite matchesEndpoint_unfold. case_bool_decide as Hm; simpl; [|done].
  destruct (run_predicate e request w) as [[[]|x] w1]; [|done..].
  intros [= H _]. apply andb_prop in H as [H Hh]. apply andb_prop in H as [Hp Hq].
  split; [done|]. split; [done|]. split.
  - intros expected Hexp. rewrite Hexp in Hq. by apply matchesQueryParams_spec.
  - intros expected Hexp key value Hkv. rewrite Hexp in Hh.
    pose proof (proj1 (matchesHeaders_spec _ _) Hh _ _ Hkv) as Hv.
    split; [done|]. by apply extractHeaders_origin.
Qed.

Lemma collectCandidates_applicable method_ url request (eps : list Endpoint)
    (w w' : World) (cs : list Candidate) :
  collectCandidates method_ url request eps w = (Return cs, w') →
  ∀ c, c ∈ cs →
    cand_endpoint c ∈ eps
    ∧ method (cand_endpoint c) = method_
    ∧ matchesPath (config (this w)) (path (cand_endpoint c)) url = true
    ∧ query_constraints_hold (cand_endpoint c) url
    ∧ header_constraints_hold (cand_endpoint c) request.
Proof.
  revert w cs. induction eps as [|a eps IH]; intros w cs; simpl.
  - unfold ret. intros [= <- <-] c Hc. by apply elem_of_nil in Hc.
  - unfold bind.
    pose proof (matchesEndpoint_keeps_registry a method_ url request w) as (_ & Hcfg & _).
    destruct (matchesEndpoint a method_ url request w) as [[hit|x] wa] eqn:Hm; [|done].
    destruct (collectCandidates method_ url request eps wa) as [[cs'|x] wb] eqn:Hrest;
      [|done].
    unfold ret. intros [= <- <-] c Hc. simpl in Hcfg.
    assert (c ∈ cs' → cand_endpoint c ∈ a :: eps
            ∧ method (cand_endpoint c) = method_
            ∧ matchesPath (config (this w)) (path (cand_endpoint c)) url = true
            ∧ query_constraints_hold (cand_endpoint c) url
            ∧ header_constraints_hold (cand_endpoint c) request) as Hold.
    { intros Hc'. destruct (IH _ _ Hrest c Hc') as (? & ? & ? & ? & ?).
      rewrite <- Hcfg. split; [by right|done]. }
    destruct hit; [|auto].
    apply elem_of_cons in Hc as [->|Hc]; [|auto]. simpl.
    split; [by left|]. by apply (matchesEndpoint_true _ _ _ _ _ _ Hm).
Qed.

(** X17.  A definition returned by [findMatchingEndpoint] is one of the
    registry and applies to the request: its method is the request's,
    its pattern matches the path, and its query and header constraints
    hold.  No definition of another method is ever served. *)
Theorem winner_applies (method_ : string) (url : URL) (request : Request)
    (w w' : World) (e : Endpoint) :
  findMatchingEndpoint method_ url request w = (Return (Some e), w') →
  e ∈ traversal (this w)
  ∧ method e = method_
  ∧ matchesPath (config (this w)) (path e) url = true
  ∧ query_constraints_hold e url
  ∧ header_constraints_hold e request.
Proof.
  unfold findMatchingEndpoint, bind, get_this.
  destruct (collectCandidates method_ url request (mjoin (endpoints (this w)).*2) w)
    as [[cs|x] w1] eqn:Hcs; [|done].
  destruct (Array_sort compareCandidates cs) as [|best rest] eqn:Hs; [done|].
  unfold ret. intros [= <- <-].
  apply (collectCandidates_applicable _ _ _ _ _ _ _ Hcs).
  rewrite <- (Array_sort_perm compareCandidates cs), Hs. by left.
Qed.

End Proofs2.

(** ** A definition requested by its own path *)

Lemma segments_match_refl (segs : list string) :
  Pattern.segments_match segs segs = true.
Proof.
  induction segs as [|seg segs IH]; [done|]. cbn [Pattern.segments_match].
  rewrite IH, andb_true_r.
  destruct (Pattern.is_param_segment seg) eqn:E.
  - by apply param_segment_truthy.
  - by apply bool_decide_eq_true_2.
Qed.

Lemma getPathWithoutBase_no_base (cfg : MockConfig) (url : URL) :
  baseUrl cfg = None → getPathWithoutBase cfg url = normalizePath (pathname url).
Proof. intros H. unfold getPathWithoutBase, getBasePath. by rewrite H. Qed.

Lemma matchesPath_own_path (cfg : MockConfig) (pattern : string) (url : URL) :
  Pattern.segment_pattern (trimTrailingSlash (normalizePath pattern)) = true →
  baseUrl cfg = None →
  pathname url = pattern →
  matchesPath cfg pattern url = true.
Proof.
  intros Hshape Hbase Hpath.
  rewrite matchesPath_segments by done.
  rewrite getPathWithoutBase_no_base, Hpath by done.
  apply segments_match_refl.
Qed.

Section Proofs3.

Context {U : Type}.
Context (JSON_parse : string -> option JsValue).
Context (hasDOMException : bool).
Context (platform : Platform).

#[local] Abbreviation World := (@World U).
#[local] Abbreviation Endpoint := (@Endpoint U).
#[local] Abbreviation Candidate := (@Candidate U).
#[local] Abbreviation ApiMocker := (@ApiMocker U).

(** X18.  The basic use: a static definition without constraints,
    registered alone, and requested with its method and its own path, is
    answered, after its delay, with the response [new Response] makes of
    what [normalizeResponse] computes for its value, or fails with the
    error of that constructor; nothing else in the world changes. *)
Theorem exact_static_definition_is_served (m : ApiMocker) (e : Endpoint)
    (value : JsValue) (call : FetchCall) (u : U) (t : Z) :
  isEnabled m = true →
  baseUrl (config m) = None →
  source e = StaticValue value →
  native_response value = None →
  match_ e = None →
  queryParams e = None →
  requestHeaders e = None →
  networkError e = None →
  Pattern.segment_pattern (trimTrailingSlash (normalizePath (path e))) = true →
  request_method call = method e →
  pathname (req_url (call_request call)) = path e →
  intercept JSON_parse hasDOMException platform call (mkWorld (mock e (clear m)) u t)
  = (match Fetch.new_Response platform (normalizeResponse (config m) e value).1.1
             (normalizeResponse (config m) e value).1.2
             (normalizeResponse (config m) e value).2 with
     | Return r => Return (Mocked (NewResponse r))
     | Throw x => Throw x
     end,
     mkWorld (mock e (clear m)) u (t + Z.max 0 (effective_delay (config m) e))).
Proof.
  intros Hon Hbase Hsource Hnative Hmatch Hquery Hheaders Hlabel Hshape Hmethod Hpath.
  set (e' := with_priority e
               (default (default 0%Z (defaultPriority (config m))) (priority e))).
  set (w := mkWorld (mock e (clear m)) u t).
  assert (endpoints (mock e (clear m))
          = [(createEndpointKey (method e) (path e), [e'])]) as Heps.
  { by rewrite mock_registry. }
  assert (matchesEndpoint e' (request_method call) (req_url (call_request call))
            (call_request call) w = (Return true, w)) as Hm.
  { rewrite matchesEndpoint_unfold. simpl. rewrite bool_decide_eq_true_2 by done.
    unfold run_predicate. simpl. rewrite Hmatch, Hquery, Hheaders. unfold ret.
    by rewrite (matchesPath_own_path _ _ _ Hshape Hbase Hpath). }
  assert (findMatchingEndpoint (request_method call) (req_url (call_request call))
            (call_request call) w = (Return (Some e'), w)) as Hfind.
  { unfold findMatchingEndpoint, bind, get_this.
    change (this w) with (mock e (clear m)). rewrite Heps.
    change (mjoin ([(createEndpointKey (method e) (path e), [e'])]).*2) with [e'].
    cbn [collectCandidates]. unfold bind. by rewrite Hm. }
  rewrite (intercept_unfold_winner JSON_parse hasDOMException platform call w w e' Hon Hfind).
  rewrite createMockResponse_unfold by (simpl; by rewrite Hlabel).
  rewrite resolveEndpointResponse_unfold. simpl. rewrite Hsource, Hnative.
  assert (normalizeResponse (config m) e' value = normalizeResponse (config m) e value)
    as -> by done.
  destruct (normalizeResponse (config m) e value) as [[body code] merged]. simpl.
  by destruct (Fetch.new_Response platform body code merged).
Qed.

(** ** The registry *)

Lemma Map_update_keys {V} key (f : V → V) (mp : list (string * V)) :
  (Map_update key f mp).*1 = mp.*1.
Proof.
  induction mp as [|[k v] mp IH]; [done|]. cbn [Map_update].
  case_bool_decide; rewrite !fmap_cons; [done|]. by rewrite IH.
Qed.

Lemma Map_update_Forall {V} key (f : V → V) (P : string * V → Prop)
    (mp : list (string * V)) :
  Forall P mp →
  (∀ v, P (key, v) → P (key, f v)) →
  Forall P (Map_update key f mp).
Proof.
  intros H Hf. induction H as [|[k v] mp Hx H IH]; [done|]. simpl.
  case_bool_decide as Hk; constructor; try done. subst. by apply Hf.
Qed.

Lemma Map_delete_sublist {V} key (mp : list (string * V)) :
  Map_delete key mp `sublist_of` mp.
Proof.
  induction mp as [|[k v] mp IH]; [done|]. simpl.
  case_bool_decide; [by apply sublist_cons|by apply sublist_skip].
Qed.

Lemma key_of_with_priority (e : Endpoint) p : key_of (with_priority e p) = key_of e.
Proof. reflexivity. Qed.

(** X19.  The registry stays well formed: after any registration or
    removal every key still occurs once and every definition still sits
    under the key of its own method and pattern; an empty registry is
    well formed. *)
Theorem registry_stays_well_formed (m : ApiMocker) (e : Endpoint)
    (method_ path_ : string) :
  registry_wf (endpoints m) →
  registry_wf (endpoints (mock e m))
  ∧ registry_wf (endpoints (remove method_ path_ m))
  ∧ registry_wf (endpoints (clear m)).
Proof.
  intros [Hkeys Hown]. split; [|split].
  - rewrite mock_registry. cbv zeta.
    destruct (Map_has (createEndpointKey (method e) (path e)) (endpoints m)) eqn:Hhas.
    + split; [by rewrite Map_update_keys|].
      apply Map_update_Forall; [done|]. simpl. intros l Hl.
      rewrite Forall_forall. intros x Hx.
      rewrite Array_sort_perm in Hx. apply elem_of_app in Hx as [Hx|Hx].
      * by apply (proj1 (Forall_forall _ _) Hl).
      * by apply list_elem_of_singleton in Hx as ->.
    + unfold Map_has in Hhas. apply bool_decide_eq_false in Hhas. split.
      * rewrite fmap_app. apply NoDup_app. split; [done|]. split.
        -- intros k Hk Hk'. apply list_elem_of_singleton in Hk'. by subst.
        -- apply NoDup_singleton.
      * apply Forall_app. split; [done|]. by repeat constructor.
  - simpl. split.
    + apply (sublist_NoDup _ ((endpoints m).*1)); [done|].
      apply fmap_sublist, Map_delete_sublist.
    + rewrite Forall_forall in Hown. apply Forall_forall. intros entry Hentry.
      apply Hown. eapply elem_of_sublist; [done|apply Map_delete_sublist].
  - split; [apply NoDup_nil_2|constructor].
Qed.

Lemma filter_all {A} (f : A → bool) (l : list A) :
  Forall (fun x => f x = true) l → List.filter f l = l.
Proof. induction 1 as [|x l Hx H IH]; simpl; [done|]. by rewrite Hx, IH. Qed.

Lemma filter_none {A} (f : A → bool) (l : list A) :
  Forall (fun x => f x = false) l → List.filter f l = [].
Proof. induction 1 as [|x l Hx H IH]; simpl; [done|]. by rewrite Hx, IH. Qed.

Lemma delete_flatten key (eps : list (string * list Endpoint)) :
  registry_wf eps →
  mjoin ((Map_delete key eps).*2) =
  List.filter (fun e => negb (bool_decide (key_of e = key))) (mjoin (eps.*2)).
Proof.
  induction eps as [|[k l] eps IH]; intros [Hkeys Hown]; [done|].
  rewrite fmap_cons in Hkeys. apply NoDup_cons in Hkeys as [Hk Hkeys].
  apply Forall_cons in Hown as [Hl Hown]. simpl in Hl, Hk.
  change (mjoin (((k, l) :: eps).*2)) with (l ++ mjoin (eps.*2)).
  rewrite List.filter_app. cbn [Map_delete]. case_bool_decide as Hkk.
  - subst k. rewrite filter_none.
    + simpl. symmetry. apply filter_all.
      rewrite Forall_forall. intros x Hx.
      apply list_elem_of_join in Hx as (l' & Hx & Hl').
      apply list_elem_of_fmap_1 in Hl' as ([k' l''] & -> & Hin). simpl in *.
      apply negb_true_iff, bool_decide_eq_false_2.
      rewrite (proj1 (Forall_forall _ _) (proj1 (Forall_forall _ _) Hown _ Hin) x Hx).
      simpl. intros ->. apply Hk.
      by apply (list_elem_of_fmap_2 fst _ (key, l'')).
    + eapply Forall_impl; [exact Hl|]. intros x Hx. simpl.
      by rewrite bool_decide_eq_true_2.
  - change (mjoin (((k, l) :: Map_delete key eps).*2))
      with (l ++ mjoin ((Map_delete key eps).*2)).
    rewrite IH by done. f_equal. symmetry. apply filter_all.
    eapply Forall_impl; [exact Hl|]. intros x Hx. simpl.
    apply negb_true_iff, bool_decide_eq_false_2. by rewrite Hx.
Qed.

(** X20.  In a well-formed registry [remove] takes away every definition
    registered under the given method and pattern text and no other: the
    remaining definitions are traversed in the order they had.  The
    pattern is compared as text, so a path that merely matches a
    registered pattern removes nothing. *)
Theorem remove_deletes_one_key (m : ApiMocker) (method_ path_ : string) :
  registry_wf (endpoints m) →
  traversal (remove method_ path_ m) =
  List.filter (fun e => negb (bool_decide (key_of e = createEndpointKey method_ path_)))
    (traversal m).
Proof. intros Hwf. unfold traversal. simpl. by apply delete_flatten. Qed.

(** *** Priority order under a key *)

#[local] Abbreviation by_priority :=
  (fun a b : Endpoint => (priority_or_0 b - priority_or_0 a)%Z).

Lemma sort_insert_sorted (x : Endpoint) (l : list Endpoint) :
  by_priority_desc l → by_priority_desc (sort_insert by_priority x l).
Proof.
  induction l as [|y l IH]; [done|]. intros [Hy Hl]. cbn [sort_insert].
  destruct (priority_or_0 y - priority_or_0 x <=? 0)%Z eqn:E.
  - apply Z.leb_le in E. split; [|done]. constructor; [lia|].
    eapply Forall_impl; [exact Hy|]. simpl. intros b Hb. lia.
  - apply Z.leb_gt in E. split; [|by apply IH].
    rewrite sort_insert_perm. constructor; [lia|done].
Qed.

Lemma Array_sort_sorted (l : list Endpoint) :
  by_priority_desc (Array_sort by_priority l).
Proof.
  induction l as [|x l IH]; [done|]. unfold Array_sort in *. simpl.
  by apply sort_insert_sorted.
Qed.

(** X21.  Registration keeps every list of the registry in descending
    order of priority, and so does removal. *)
Theorem lists_stay_sorted_by_priority (m : ApiMocker) (e : Endpoint)
    (method_ path_ : string) :
  Forall (fun entry => by_priority_desc entry.2) (endpoints m) →
  Forall (fun entry => by_priority_desc entry.2) (endpoints (mock e m))
  ∧ Forall (fun entry => by_priority_desc entry.2) (endpoints (remove method_ path_ m)).
Proof.
  intros Hsorted. split.
  - rewrite mock_registry. cbv zeta.
    destruct (Map_has (createEndpointKey (method e) (path e)) (endpoints m)).
    + apply Map_update_Forall; [done|]. intros l _. apply Array_sort_sorted.
    + apply Forall_app. split; [done|]. by repeat constructor.
  - simpl. rewrite Forall_forall in Hsorted. apply Forall_forall. intros entry Hentry.
    apply Hsorted. eapply elem_of_sublist; [done|apply Map_delete_sublist].
Qed.

Lemma sort_insert_first (a : Endpoint) (r : list Endpoint) :
  Forall (fun b => (priority_or_0 b <= priority_or_0 a)%Z) r →
  sort_insert by_priority a r = a :: r.
Proof.
  destruct r as [|y r]; [done|]. intros Hr. apply Forall_cons in Hr as [Hy _].
  cbn [sort_insert]. by rewrite (proj2 (Z.leb_le _ _)) by lia.
Qed.

Lemma append_then_sort (x : Endpoint) (l : list Endpoint) :
  by_priority_desc l →
  ∃ l1 l2,
    l = l1 ++ l2
    ∧ Array_sort by_priority (l ++ [x]) = l1 ++ x :: l2
    ∧ Forall (fun a => (priority_or_0 x <= priority_or_0 a)%Z) l1
    ∧ Forall (fun b => (priority_or_0 b < priority_or_0 x)%Z) l2.
Proof.
  unfold Array_sort. rewrite foldr_app. cbn [foldr sort_insert].
  induction l as [|a l IH]; intros Hl.
  - exists [], []. by repeat split.
  - destruct Hl as [Ha Hl]. destruct (IH Hl) as (l1 & l2 & -> & Hs & H1 & H2).
    cbn [foldr]. rewrite Hs.
    destruct l1 as [|y l1].
    + simpl in *. destruct (priority_or_0 x - priority_or_0 a <=? 0)%Z eqn:E.
      * apply Z.leb_le in E. exists [a], l2. repeat split; [|done].
        constructor; [lia|done].
      * apply Z.leb_gt in E. rewrite sort_insert_first by done.
        exists [], (a :: l2). repeat split; [done|]. constructor; [lia|done].
    + apply Forall_cons in H1 as [Hy H1].
      apply Forall_cons in Ha as [Hya Ha].
      exists (a :: y :: l1), l2. split; [done|]. split.
      * change ((y :: l1) ++ x :: l2) with (y :: (l1 ++ x :: l2)).
        cbn [sort_insert]. by rewrite (proj2 (Z.leb_le _ _)) by lia.
      * split; [|done]. constructor; [lia|]. by constructor.
Qed.

(** X22.  Under a key whose list is in priority order, a new definition
    is placed behind the definitions of the same or a higher priority
    and before those of a lower one, the others keeping their order:
    among equal priorities the list is in registration order. *)
Theorem registration_position (m : ApiMocker) (e : Endpoint) (l : list Endpoint) :
  Map_get (key_of e) (endpoints m) = Some l →
  by_priority_desc l →
  ∃ l1 l2,
    l = l1 ++ l2
    ∧ Map_get (key_of e) (endpoints (mock e m))
      = Some (l1 ++ with_priority e
                      (default (default 0%Z (defaultPriority (config m))) (priority e))
                    :: l2)
    ∧ Forall (fun a =>
                (default (default 0%Z (defaultPriority (config m))) (priority e)
                 <= priority_or_0 a)%Z) l1
    ∧ Forall (fun b =>
                (priority_or_0 b
                 < default (default 0%Z (defaultPriority (config m))) (priority e))%Z) l2.
Proof.
  intros Hget Hsorted.
  destruct (append_then_sort
              (with_priority e
                 (default (default 0%Z (defaultPriority (config m))) (priority e)))
              l Hsorted) as (l1 & l2 & Hl & Hs & H1 & H2).
  exists l1, l2. split; [done|]. split; [|done].
  rewrite mock_registry. cbv zeta. fold (key_of e).
  rewrite (proj2 (Map_get_has (key_of e) (endpoints m))) by (by rewrite Hget).
  by rewrite Map_get_update, Hget, <- Hs.
Qed.

End Proofs3.

(** * Instances *)

(** ** The scenarios of the repository's tests, run on the model *)

Example static_get_is_served :
  intercept Sample.parse_literal true Sample.platform (Sample.get_call "/users/1" [])
    (Sample.world_of Sample.static_user)
  = (Return (Mocked (Sample.response (BodyJson Sample.user1) 200)),
     Sample.world_of Sample.static_user).
Proof. vm_compute. reflexivity. Qed.

Example post_with_custom_status :
  (intercept Sample.parse_literal true Sample.platform
     (mkCall (Some "post") (Sample.get_request "/users" []))
     (Sample.world_of Sample.created_user)).1
  = Return (Mocked (Sample.response (BodyJson Sample.user1) 201)).
Proof. vm_compute. reflexivity. Qed.

Example handler_sees_path_parameter :
  (intercept Sample.parse_literal true Sample.platform (Sample.get_call "/users/123" [])
     (Sample.world_of Sample.dynamic_user)).1
  = Return (Mocked (Sample.response (BodyJson (JObj {["id" := JStr "123"]})) 200)).
Proof. vm_compute. reflexivity. Qed.

Example higher_priority_wins :
  (intercept Sample.parse_literal true Sample.platform (Sample.get_call "/users/123" [])
     (Sample.world_of Sample.generic_then_specific)).1
  = Return (Mocked (Sample.response (BodyRaw (JStr "specific")) 200)).
Proof. vm_compute. reflexivity. Qed.

Example query_constraint_selects :
  (intercept Sample.parse_literal true Sample.platform (Sample.get_call "/users" [("role", "user")])
     (Sample.world_of Sample.admins_and_users)).1
  = Return (Mocked (Sample.response (BodyRaw (JStr "regular")) 200)).
Proof. vm_compute. reflexivity. Qed.

Example header_constraint_selects :
  (intercept Sample.parse_literal true Sample.platform
     (mkCall None (mkRequest (mkURL "/api/data" []) [("accept", "application/xml")]
                     (Return EmptyString)))
     (Sample.world_of Sample.json_and_xml)).1
  = Return (Mocked (Sample.response (BodyRaw (JStr "xml")) 200)).
Proof. vm_compute. reflexivity. Qed.

Example disabled_passes_through :
  intercept Sample.parse_literal true Sample.platform (Sample.get_call "/users/1" [])
    (Sample.world_of (disable Sample.static_user))
  = (Return (RealTransport (Sample.get_call "/users/1" [])),
     Sample.world_of (disable Sample.static_user)).
Proof. vm_compute. reflexivity. Qed.

Example unmatched_passes_through :
  (intercept Sample.parse_literal true Sample.platform (Sample.get_call "/users/1/posts" [])
     (Sample.world_of Sample.static_user)).1
  = Return (RealTransport (Sample.get_call "/users/1/posts" [])).
Proof. vm_compute. reflexivity. Qed.

Example base_path_is_stripped :
  matchesPath Sample.config_v1 "/users/:id" (mkURL "/v1/users/7" []) = true
  ∧ matchesPath Sample.config_v1 "/users/:id" (mkURL "/users/7" []) = true
  ∧ matchesPath Sample.config_v1 "/users/:id" (mkURL "/v2/users/7" []) = false.
Proof. repeat split; vm_compute; reflexivity. Qed.

Example timeout_rejects_the_call :
  intercept Sample.parse_literal true Sample.platform (Sample.get_call "/timeout" [])
    (Sample.world_of Sample.timeout_mocker)
  = (Throw (new_TypeError "Network request failed: timeout"),
     Sample.world_of Sample.timeout_mocker).
Proof. vm_compute. reflexivity. Qed.

Example handler_receives_parsed_body :
  (intercept Sample.parse_literal true Sample.platform (Sample.post_call "true")
     (Sample.world_of Sample.body_mocker)).1
  = Return (Mocked (Sample.response (BodyJson (JArr [JBool true])) 200))
  ∧ (intercept Sample.parse_literal true Sample.platform (Sample.post_call "plain text")
       (Sample.world_of Sample.body_mocker)).1
    = Return (Mocked (Sample.response (BodyJson (JArr [JStr "plain text"])) 200))
  ∧ (intercept Sample.parse_literal true Sample.platform (Sample.post_call EmptyString)
       (Sample.world_of Sample.body_mocker)).1
    = Return (Mocked (Sample.response (BodyJson (JArr [JUndefined])) 200)).
Proof. repeat split; vm_compute; reflexivity. Qed.

(** ** Instances of the theorems *)

(** At equal priority [/users/me] (specificity 20) wins over [/users/:id]
    (specificity 11), whichever was registered first. *)
Lemma sample_winner_is_literal :
  (findMatchingEndpoint "GET" (mkURL "/users/me" []) (Sample.get_request "/users/me" [])
     (Sample.world_of Sample.me_and_id)).1
  = Return (Some (with_priority (Sample.get_ "/users/me" "static") 0)).
Proof. vm_compute. reflexivity. Qed.

Lemma findMatchingEndpoint_first_best_witness :
  collectCandidates "GET" (mkURL "/users/me" []) (Sample.get_request "/users/me" [])
    (mjoin ((endpoints (this (Sample.world_of Sample.me_and_id))).*2))
    (Sample.world_of Sample.me_and_id)
  = (Return Sample.two_candidates, Sample.world_of Sample.me_and_id)
  ∧ ∃ pre best post,
      Sample.two_candidates = pre ++ best :: post
      ∧ findMatchingEndpoint "GET" (mkURL "/users/me" [])
          (Sample.get_request "/users/me" []) (Sample.world_of Sample.me_and_id)
        = (Return (Some (cand_endpoint best)), Sample.world_of Sample.me_and_id)
      ∧ (∀ d, d ∈ pre → outranks best d)
      ∧ (∀ d, d ∈ post → ¬ outranks d best).
Proof.
  assert (collectCandidates "GET" (mkURL "/users/me" [])
            (Sample.get_request "/users/me" [])
            (mjoin ((endpoints (this (Sample.world_of Sample.me_and_id))).*2))
            (Sample.world_of Sample.me_and_id)
          = (Return Sample.two_candidates, Sample.world_of Sample.me_and_id)) as H.
  { vm_compute. reflexivity. }
  split; [exact H|].
  exact (proj2 (proj2 (proj2 (proj2 (proj2
           (findMatchingEndpoint_first_best _ _ _ _ _ _ H)))))).
Defined.

(** C1 as stated fails: [/users/:name] was registered before the second
    [/users/:id], both apply to [GET /users/5] with equal priority and
    specificity, yet the second [/users/:id] is returned, because its key
    entered the map first. *)
Lemma registration_order_not_respected :
  registration_order_winner
    [Sample.admin_only; Sample.by_name; Sample.by_id]
    (applicable_in (Sample.world_of Sample.three_registrations) "GET"
       (mkURL "/users/5" []) (Sample.get_request "/users/5" []))
  = Some Sample.by_name
  ∧ (findMatchingEndpoint "GET" (mkURL "/users/5" []) (Sample.get_request "/users/5" [])
       (Sample.world_of Sample.three_registrations)).1
    = Return (Some (with_priority Sample.by_id 0))
  ∧ path Sample.by_name ≠ path (with_priority Sample.by_id 0).
Proof. split; [|split]; [vm_compute; reflexivity..|done]. Qed.




Lemma networkError_always_fails_witness :
  networkError Sample.timing_out = Some "timeout"
  ∧ "timeout" ≠ EmptyString
  ∧ ∃ e w',
      createMockResponse Sample.parse_literal true Sample.platform Sample.timing_out
        (mkURL "/timeout" []) (Sample.get_request "/timeout" [])
        (Sample.world_of Sample.empty_mocker) = (Throw e, w')
      ∧ e = new_TypeError "Network request failed: timeout".
Proof.
  split; [reflexivity|]. split; [done|].
  destruct (networkError_always_fails Sample.parse_literal true Sample.platform Sample.timing_out
              "timeout" (mkURL "/timeout" []) (Sample.get_request "/timeout" [])
              (Sample.world_of Sample.empty_mocker) eq_refl ltac:(done))
    as (e & w' & Hrun & _ & _ & Htimeout & _).
  exists e, w'. split; [exact Hrun|]. exact (Htimeout eq_refl).
Defined.

Lemma predicate_throw_propagates_witness :
  isEnabled (this (Sample.world_of Sample.guarded_mocker)) = true
  ∧ match_ Sample.guarded = Some Sample.throwing_predicate
  ∧ intercept Sample.parse_literal true Sample.platform (Sample.get_call "/guarded" [])
      (Sample.world_of Sample.guarded_mocker)
    = (Throw Sample.boom, Sample.world_of Sample.guarded_mocker).
Proof.
  split; [reflexivity|]. split; [reflexivity|].
  apply (predicate_throw_propagates Sample.parse_literal true Sample.platform
           (Sample.get_call "/guarded" [])
           (Sample.world_of Sample.guarded_mocker)
           (Sample.world_of Sample.guarded_mocker)
           (Sample.world_of Sample.guarded_mocker)
           [] [] (with_priority Sample.guarded 0) [] Sample.throwing_predicate
           Sample.boom);
    vm_compute; reflexivity.
Defined.





(** The name class of [matchesPath] lists [-], but by then every [-] has
    been escaped: [:user-id] compiles to a group followed by the literal
    [-id]. *)
Lemma hyphen_ends_a_name :
  Regex.replace_params false (Regex.escape "/users/:user-id") = "\/users\/([^/]+)\-id"
  ∧ matchesPath Sample.config0 "/users/:user-id" (mkURL "/users/5" []) = false
  ∧ matchesPath Sample.config0 "/users/:user-id" (mkURL "/users/5-id" []) = true
  ∧ extractParams Sample.config0 "/users/:user-id" (mkURL "/users/5-id" []) !! "user-id"
    = Some "5-id".
Proof. repeat split; vm_compute; reflexivity. Qed.

(** ** Instances of the further properties *)

Lemma matchesPath_same_depth_witness :
  matchesPath Sample.config0 "/users/:id" (mkURL "/users/7" []) = true
  ∧ count_slashes (trimTrailingSlash (normalizePath "/users/:id"))
    = count_slashes
        (trimTrailingSlash (getPathWithoutBase Sample.config0 (mkURL "/users/7" []))).
Proof.
  assert (matchesPath Sample.config0 "/users/:id" (mkURL "/users/7" []) = true) as H
    by (vm_compute; reflexivity).
  split; [exact H|]. exact (matchesPath_same_depth _ _ _ H).
Defined.

Lemma matchesPath_literal_witness :
  Pattern.has_token (trimTrailingSlash (normalizePath "/a.b")) = false
  ∧ matchesPath Sample.config0 "/a.b" (mkURL "/axb" []) = false
  ∧ matchesPath Sample.config0 "/a.b" (mkURL "/a.b" []) = true.
Proof.
  assert (Pattern.has_token (trimTrailingSlash (normalizePath "/a.b")) = false) as H
    by (vm_compute; reflexivity).
  split; [exact H|]. split.
  - rewrite (matchesPath_literal Sample.config0 "/a.b" (mkURL "/axb" []) H).
    vm_compute. reflexivity.
  - rewrite (matchesPath_literal Sample.config0 "/a.b" (mkURL "/a.b" []) H).
    vm_compute. reflexivity.
Defined.

Lemma pattern_ends_do_not_matter_witness :
  Str.endsWith_ch "/" "users/:id" = false
  ∧ matchesPath Sample.config0 ("users/:id" +:+ "/") (mkURL "/users/7" [])
    = matchesPath Sample.config0 "users/:id" (mkURL "/users/7" []).
Proof.
  split; [reflexivity|].
  exact (proj1 (pattern_ends_do_not_matter Sample.config0 "users/:id"
                  (mkURL "/users/7" []) eq_refl)).
Defined.

Lemma base_path_is_a_text_prefix_witness :
  baseUrl Sample.config_v1 = Some (mkURL "/v1" [])
  ∧ getPathWithoutBase Sample.config_v1 (mkURL "/v1ary/x" []) = "/ary/x".
Proof.
  split; [reflexivity|].
  exact (proj1 (base_path_is_a_text_prefix Sample.config_v1 (mkURL "/v1" [])
                  (mkURL "/v1ary/x" []) "ary/x" eq_refl ltac:(discriminate) eq_refl)).
Defined.

Lemma extractParams_sound_witness :
  extractParams Sample.config0 "/users/:id" (mkURL "/users/7" []) !! "id" = Some "7"
  ∧ ∃ i,
      Str.filterBoolean
        (Str.split "/" (trimTrailingSlash (normalizePath "/users/:id"))) !! i
        = Some (String ":" "id")
      ∧ Str.filterBoolean
          (Str.split "/"
             (trimTrailingSlash
                (getPathWithoutBase Sample.config0 (mkURL "/users/7" [])))) !! i
        = Some "7"
      ∧ "7" ≠ EmptyString.
Proof.
  assert (extractParams Sample.config0 "/users/:id" (mkURL "/users/7" []) !! "id"
          = Some "7") as H by (vm_compute; reflexivity).
  split; [exact H|]. exact (extractParams_sound _ _ _ _ _ H).
Defined.

Lemma extractHeaders_lower_case_witness :
  extractHeaders Sample2.accept_request !! "accept" = Some "application/json"
  ∧ Str.toLowerCase "accept" = "accept"
  ∧ extractHeaders Sample2.accept_request !! "Accept" = None.
Proof.
  assert (extractHeaders Sample2.accept_request !! "accept" = Some "application/json")
    as H by (vm_compute; reflexivity).
  split; [exact H|].
  split; [exact (proj1 (extractHeaders_lower_case _ _ _ H))|].
  vm_compute. reflexivity.
Defined.

Lemma query_constraints_ignore_other_keys_witness :
  matchesQueryParams {["role" := "admin"]} (mkURL "/users" [("role", "admin")]) = true
  ∧ matchesQueryParams {["role" := "admin"]}
      (mkURL "/users" ([("role", "admin")] ++ [("page", "2")])) = true.
Proof.
  assert (matchesQueryParams {["role" := "admin"]} (mkURL "/users" [("role", "admin")])
          = true) as H by (vm_compute; reflexivity).
  split; [exact H|].
  exact (proj1 (query_constraints_ignore_other_keys _ "/users" "/users" _
                  [("page", "2")] H)).
Defined.

Lemma disable_bypasses_matching_witness :
  isEnabled Sample.static_user = true
  ∧ intercept Sample.parse_literal true Sample.platform (Sample.get_call "/users/1" [])
      (mkWorld (disable Sample.static_user) tt 0%Z)
    = (Return (RealTransport (Sample.get_call "/users/1" [])),
       mkWorld (disable Sample.static_user) tt 0%Z)
  ∧ enable (disable Sample.static_user) = Sample.static_user.
Proof.
  split; [reflexivity|].
  destruct (disable_bypasses_matching Sample.parse_literal true Sample.platform Sample.static_user tt 0%Z
              (Sample.get_call "/users/1" []) eq_refl) as (H1 & _ & _ & _ & H2 & _).
  split; [exact H1|exact H2].
Defined.

Lemma handler_failure_rejects_the_call_witness :
  isEnabled (this (Sample.world_of Sample2.failing_mocker)) = true
  ∧ networkError (with_priority Sample2.failing_endpoint 0) = None
  ∧ intercept Sample.parse_literal true Sample.platform (Sample.get_call "/fails" [])
      (Sample.world_of Sample2.failing_mocker)
    = (Throw Sample.boom,
       Sample.world_of (setState "seen" (JBool true) Sample2.failing_mocker)).
Proof.
  split; [reflexivity|]. split; [reflexivity|].
  apply (handler_failure_rejects_the_call Sample.parse_literal true Sample.platform
           (Sample.get_call "/fails" [])
           (Sample.world_of Sample2.failing_mocker)
           (Sample.world_of Sample2.failing_mocker)
           (Sample.world_of (setState "seen" (JBool true) Sample2.failing_mocker))
           (with_priority Sample2.failing_endpoint 0) Sample.boom);
    vm_compute; reflexivity.
Defined.

Lemma native_response_is_returned_untouched_witness :
  isEnabled (this (Sample.world_of Sample2.ready_made_mocker)) = true
  ∧ networkError (with_priority Sample2.ready_made 0) = None
  ∧ intercept Sample.parse_literal true Sample.platform (Sample.get_call "/custom-response" [])
      (Sample.world_of Sample2.ready_made_mocker)
    = (Return (Mocked (NativeResponse 7)), Sample.world_of Sample2.ready_made_mocker).
Proof.
  split; [reflexivity|]. split; [reflexivity|].
  apply (native_response_is_returned_untouched Sample.parse_literal true
           Sample.platform
           (Sample.get_call "/custom-response" [])
           (Sample.world_of Sample2.ready_made_mocker)
           (Sample.world_of Sample2.ready_made_mocker)
           (Sample.world_of Sample2.ready_made_mocker)
           (with_priority Sample2.ready_made 0) 7);
    vm_compute; reflexivity.
Defined.

Lemma handler_shares_the_state_witness :
  source Sample2.failing_endpoint = Handler Sample2.failing
  ∧ ∃ w',
      resolveEndpointResponse Sample.parse_literal Sample2.failing_endpoint
        (Sample.get_request "/fails" []) (Sample.world_of Sample2.failing_mocker)
      = (Throw Sample.boom, w')
      ∧ getState (this w') = Sample2.seen.
Proof.
  split; [reflexivity|].
  destruct (handler_shares_the_state Sample.parse_literal Sample2.failing_endpoint
              (Sample.get_request "/fails" []) (Sample.world_of Sample2.failing_mocker)
              Sample2.failing (Throw Sample.boom) Sample2.seen tt
              eq_refl ltac:(vm_compute; reflexivity)) as (w' & Hrun & Hstate & _).
  exists w'. split; [exact Hrun|exact Hstate].
Defined.

Lemma winner_applies_witness :
  findMatchingEndpoint "GET" (mkURL "/users/me" []) (Sample.get_request "/users/me" [])
    (Sample.world_of Sample.me_and_id)
  = (Return (Some (with_priority (Sample.get_ "/users/me" "static") 0)),
     Sample.world_of Sample.me_and_id)
  ∧ method (with_priority (Sample.get_ "/users/me" "static") 0) = "GET"
  ∧ matchesPath (config (this (Sample.world_of Sample.me_and_id)))
      (path (with_priority (Sample.get_ "/users/me" "static") 0))
      (mkURL "/users/me" []) = true.
Proof.
  assert (findMatchingEndpoint "GET" (mkURL "/users/me" [])
            (Sample.get_request "/users/me" []) (Sample.world_of Sample.me_and_id)
          = (Return (Some (with_priority (Sample.get_ "/users/me" "static") 0)),
             Sample.world_of Sample.me_and_id)) as H by (vm_compute; reflexivity).
  split; [exact H|].
  destruct (winner_applies _ _ _ _ _ _ H) as (_ & Hm & Hp & _).
  split; [exact Hm|exact Hp].
Defined.

Lemma exact_static_definition_is_served_witness :
  isEnabled Sample.empty_mocker = true
  ∧ source Sample2.user_endpoint = StaticValue Sample.user1
  ∧ intercept Sample.parse_literal true Sample.platform (Sample.get_call "/users/1" [])
      (mkWorld (mock Sample2.user_endpoint (clear Sample.empty_mocker)) tt 0%Z)
    = (Return (Mocked (Sample.response (BodyJson Sample.user1) 200)),
       mkWorld (mock Sample2.user_endpoint (clear Sample.empty_mocker)) tt 0%Z)
  ∧ intercept Sample.parse_literal true Sample.platform (Sample.get_call "/gone" [])
      (mkWorld (mock Sample2.no_content (clear Sample.empty_mocker)) tt 0%Z)
    = (Throw (mkError TypeError "TypeError"
                "Response constructor: Invalid response status code"),
       mkWorld (mock Sample2.no_content (clear Sample.empty_mocker)) tt 0%Z).
Proof.
  split; [reflexivity|]. split; [reflexivity|]. split.
  - rewrite (exact_static_definition_is_served Sample.parse_literal true Sample.platform
               Sample.empty_mocker Sample2.user_endpoint Sample.user1
               (Sample.get_call "/users/1" []) tt 0%Z
               eq_refl eq_refl eq_refl eq_refl eq_refl eq_refl eq_refl eq_refl
               ltac:(vm_compute; reflexivity) ltac:(vm_compute; reflexivity) eq_refl).
    vm_compute. reflexivity.
  - rewrite (exact_static_definition_is_served Sample.parse_literal true Sample.platform
               Sample.empty_mocker Sample2.no_content Sample.user1
               (Sample.get_call "/gone" []) tt 0%Z
               eq_refl eq_refl eq_refl eq_refl eq_refl eq_refl eq_refl eq_refl
               ltac:(vm_compute; reflexivity) ltac:(vm_compute; reflexivity) eq_refl).
    vm_compute. reflexivity.
Defined.

Lemma registry_stays_well_formed_witness :
  registry_wf (endpoints Sample.empty_mocker)
  ∧ registry_wf (endpoints (mock Sample2.user_endpoint Sample.empty_mocker)).
Proof.
  assert (registry_wf (endpoints Sample.empty_mocker)) as H.
  { split; [apply NoDup_nil_2|constructor]. }
  split; [exact H|].
  exact (proj1 (registry_stays_well_formed Sample.empty_mocker Sample2.user_endpoint
                  "GET" "/users/1" H)).
Defined.

Lemma remove_deletes_one_key_witness :
  registry_wf (endpoints Sample.static_user)
  ∧ traversal (remove "GET" "/users/1" Sample.static_user) = []
  ∧ traversal (remove "GET" "/users/:id" Sample.static_user)
    = traversal Sample.static_user.
Proof.
  assert (registry_wf (endpoints Sample.static_user)) as H.
  { split; [apply NoDup_singleton|]. repeat constructor. }
  split; [exact H|]. split.
  - rewrite (remove_deletes_one_key Sample.static_user "GET" "/users/1" H).
    vm_compute. reflexivity.
  - rewrite (remove_deletes_one_key Sample.static_user "GET" "/users/:id" H).
    vm_compute. reflexivity.
Defined.

Lemma lists_stay_sorted_by_priority_witness :
  Forall (fun entry => by_priority_desc entry.2) (endpoints Sample2.generic_only)
  ∧ Forall (fun entry => by_priority_desc entry.2)
      (endpoints (mock (Sample.with_priority_of 10 "specific") Sample2.generic_only)).
Proof.
  assert (Forall (fun entry => by_priority_desc entry.2)
            (endpoints Sample2.generic_only)) as H.
  { repeat constructor. }
  split; [exact H|].
  exact (proj1 (lists_stay_sorted_by_priority Sample2.generic_only
                  (Sample.with_priority_of 10 "specific") "GET" "/x" H)).
Defined.

Lemma registration_position_witness :
  Map_get (key_of (Sample.with_priority_of 10 "specific"))
    (endpoints Sample2.generic_only)
  = Some [with_priority (Sample.with_priority_of 1 "generic") 1]
  ∧ ∃ l1 l2,
      [with_priority (Sample.with_priority_of 1 "generic") 1] = l1 ++ l2
      ∧ Map_get (key_of (Sample.with_priority_of 10 "specific"))
          (endpoints (mock (Sample.with_priority_of 10 "specific") Sample2.generic_only))
        = Some (l1 ++ with_priority (Sample.with_priority_of 10 "specific") 10 :: l2)
      ∧ Forall (fun a => (10 <= priority_or_0 a)%Z) l1
      ∧ Forall (fun b => (priority_or_0 b < 10)%Z) l2.
Proof.
  assert (Map_get (key_of (Sample.with_priority_of 10 "specific"))
            (endpoints Sample2.generic_only)
          = Some [with_priority (Sample.with_priority_of 1 "generic") 1]) as H
    by (vm_compute; reflexivity).
  split; [exact H|].
  exact (registration_position Sample2.generic_only
           (Sample.with_priority_of 10 "specific") _ H ltac:(repeat constructor)).
Defined.
